(** * jzazbz: colour math and gradients in the JzAzBz colour space

    A shallow embedding of [jzazbz/jzazbz.go] (package [jzazbz] of lipgloss)
    and the properties its specification states about it.

    Conventions of the embedding.
    - A Go [float64] is a primitive binary64 [float]; [+ - * /] and the
      comparisons are IEEE 754 operations, evaluated one by one (no fused
      multiply-add), as the Go compiler emits them on amd64.
    - A Go [int] is a [Z]; where its 64-bit range matters it is stated as
      [int_range].
    - A Go [string] is a [string] of bytes, a [byte] a [Z] reduced modulo 256.
    - A run-time panic (index out of range) is the result [None]; a function
      that may panic returns an [option].
    - [math.Pow] is a function of Go's standard library whose bits depend on
      the platform: it is a parameter [Pow] of every definition that calls it.
    - A [*Color] is never written through after it is built, so it is the
      value [Color]. *)

From Stdlib Require Import ZArith List Lia Bool String Ascii.
From Stdlib Require Import Floats Uint63.
Import ListNotations.

Set Warnings "-inexact-float".
Local Open Scope Z_scope.

(** ** Panics *)

Definition bind {A B : Type} (m : option A) (k : A -> option B) : option B :=
  match m with
  | Some x => k x
  | None => None
  end.

Notation "x <- m ;; k" := (bind m (fun x => k))
  (at level 61, m at next level, right associativity).

(** ** Go primitives *)

(** [len] of a slice, as a Go [int]. *)
Definition len {A : Type} (l : list A) : Z := Z.of_nat (List.length l).

(** [l[i]] on a slice: a panic when [i] is negative or not below [len l]. *)
Definition index {A : Type} (l : list A) (i : Z) : option A :=
  if i <? 0 then None else nth_error l (Z.to_nat i).

(** [len] and [s[i]] on a string. *)
Definition slen (s : string) : Z := Z.of_nat (String.length s).

Definition byte_at (s : string) (i : Z) : option Z :=
  if i <? 0 then None
  else match String.get (Z.to_nat i) s with
       | Some c => Some (Z.of_N (N_of_ascii c))
       | None => None
       end.

(** Arithmetic on [byte] wraps around modulo 256. *)
Definition u8 (z : Z) : Z := z mod 256.

(** The range of a Go [int] on the 64-bit platforms. *)
Definition int_range (z : Z) : Prop := - 2 ^ 63 <= z < 2 ^ 63.

(** [float64(z)] for an integer [z]: [z] rounded to the nearest binary64,
    ties to even. *)
Definition float64_of_int (z : Z) : float :=
  SF2Prim (binary_normalize prec emax z 0 false).

(** [math.IsNaN]. *)
Definition IsNaN (x : float) : bool := is_nan x.

(** ** Colours *)

(** [type Color struct { j, a, b float64 }]; the fields are [col_j], [col_a]
    and [col_b] here. *)
Record Color : Set := mkColor { col_j : float; col_a : float; col_b : float }.

Definition black : Color := mkColor 0 0 0.

(** [==] on the three components, as Go compares [float64]s. *)
Definition Color_eqb (c d : Color) : bool :=
  (col_j c =? col_j d)%float && (col_a c =? col_a d)%float
  && (col_b c =? col_b d)%float.

(** No component is NaN or an infinity. *)
Definition Color_is_finite (c : Color) : bool :=
  is_finite (col_j c) && is_finite (col_a c) && is_finite (col_b c).

Definition lerp (a b f : float) : float :=
  if (a =? b)%float then a else (a * (1.0 - f) + b * f)%float.

Definition blend (c c2 : Color) (frac : float) : Color :=
  mkColor (lerp (col_j c) (col_j c2) frac)
          (lerp (col_a c) (col_a c2) frac)
          (lerp (col_b c) (col_b c2) frac).

(** ** Gradients *)

(** [type stop struct { Color *Color; Offset float64 }]. *)
Record stop : Set := mkStop { stop_Color : Color; Offset : float }.

(** [type Gradient struct { stops []stop }]: the slice of its stops. *)
Definition Gradient : Set := list stop.

(** [var BadGradient = &Gradient{}]: the gradient without stops.  Every
    gradient [NewGradient] populates has a stop, so the sentinel is told
    from them by its value. *)
Definition BadGradient : Gradient := [].

(** [func (g *Gradient) Color(idx int) *Color]. *)
Definition Gradient_Color (g : Gradient) (idx : Z) : option Color :=
  if len g >? idx then
    st <- index g idx ;; Some (stop_Color st)
  else Some black.

(** The loop of [ColorAt],
    [for s = 0; s < len(g.stops); s++ { if f < g.stops[s].Offset { break } }],
    entered at index [s] with [rest] the stops from [s] on; it returns the
    value of [s] after the loop. *)
Fixpoint scan (f : float) (rest : list stop) (s : Z) : Z :=
  match rest with
  | [] => s
  | st :: rest' => if (f <? Offset st)%float then s else scan f rest' (s + 1)
  end.

(** [func (g *Gradient) ColorAt(pos, max int) *Color]. *)
Definition ColorAt (g : Gradient) (pos max : Z) : option Color :=
  if len g =? 0 then Some black
  else if len g =? 1 then
    st <- index g 0 ;; Some (stop_Color st)
  else if pos =? 0 then
    st <- index g 0 ;; Some (stop_Color st)
  else if pos =? max then
    st <- index g (len g - 1) ;; Some (stop_Color st)
  else
    let f := (float64_of_int pos / float64_of_int max)%float in
    let s := scan f g 0 in
    if s =? 0 then
      st <- index g 0 ;; Some (stop_Color st)
    else if s =? len g then
      st <- index g (len g - 1) ;; Some (stop_Color st)
    else
      lo <- index g (s - 1) ;;
      hi <- index g s ;;
      let f' := ((f - Offset lo) / (Offset hi - Offset lo))%float in
      Some (blend (stop_Color lo) (stop_Color hi) f').

(** ** Go's standard library *)

(** [math.Round]: the nearest integer, halves away from zero; infinities, NaN
    and zeros are returned as they are.  A finite [x] is [m * 2^e] up to its
    sign. *)
Definition Round (x : float) : float :=
  match Prim2SF x with
  | S754_finite s m e =>
      if 0 <=? e then x
      else
        let q := (Zpos m + 2 ^ (- e - 1)) / 2 ^ (- e) in
        SF2Prim (binary_normalize prec emax (cond_Zopp s q) 0 s)
  | _ => x
  end.

(** The integer part of a finite [float64], towards zero. *)
Definition trunc (x : float) : option Z :=
  match Prim2SF x with
  | S754_zero _ => Some 0
  | S754_finite s m e =>
      Some (cond_Zopp s (if 0 <=? e then Zpos m * 2 ^ e else Zpos m / 2 ^ (- e)))
  | _ => None
  end.

(** [sort.Float64Slice.Less(i, j)] on the elements [xi] and [xj]: ascending,
    with the NaNs before every other value. *)
Definition Float64Slice_Less (xi xj : float) : bool :=
  (xi <? xj)%float || (IsNaN xi && negb (IsNaN xj)).

(** [sort.IsSorted(sort.Float64Slice(x))]: no element is [Less] than the one
    before it. *)
Fixpoint IsSorted (x : list float) : bool :=
  match x with
  | [] => true
  | x0 :: rest =>
      match rest with
      | [] => true
      | x1 :: _ => negb (Float64Slice_Less x1 x0) && IsSorted rest
      end
  end.

(** Each offset is at most the next one. *)
Definition non_decreasing (x : list float) : Prop :=
  forall (i : nat) (a b : float),
    nth_error x i = Some a -> nth_error x (S i) = Some b ->
    (a <=? b)%float = true.

(** [l[i] = x] on a slice: a panic out of range. *)
Definition store {A : Type} (l : list A) (i : Z) (x : A) : option (list A) :=
  if (i <? 0) || (len l <=? i) then None
  else Some (firstn (Z.to_nat i) l ++ x :: skipn (S (Z.to_nat i)) l).

(** ** Conversions *)

Definition hexByte (b : Z) : Z :=
  if (48 <=? b) && (b <=? 57) then u8 (b - 48)
  else if (97 <=? b) && (b <=? 102) then u8 (u8 (b - 97) + 10)
  else if (65 <=? b) && (b <=? 70) then u8 (u8 (b - 65) + 10)
  else 0.

(** [hexByte(hi)<<4 + hexByte(lo)], in [byte] arithmetic. *)
Definition hexPair (hi lo : Z) : Z :=
  u8 (u8 (Z.shiftl (hexByte hi) 4) + hexByte lo).

Section WithPow.

(** [math.Pow]. *)
Variable Pow : float -> float -> float.

(** What [uint32(x)] yields when the integer part of [x] is not a [uint32]:
    Go leaves the value to the implementation. *)
Variable uint32_unspecified : float -> Z.

Definition uint32_of_float (x : float) : Z :=
  match trunc x with
  | Some z => if (0 <=? z) && (z <? 2 ^ 32) then z else uint32_unspecified x
  | None => uint32_unspecified x
  end.

Definition rgbLinearToStandard (l : float) : float :=
  if (l <=? 0.0031308)%float then (12.92 * l)%float
  else (1.055 * Pow l 0.4166666666666667 - 0.055)%float.

Definition rgbStandardToLinear (s : float) : float :=
  if (s <=? 0.04045)%float then (0.07739938080495357 * s)%float
  else Pow ((s + 0.055) * 0.9478672985781991)%float 2.4.

Definition pq (x : float) : float :=
  let xP := Pow (x * 1e-4)%float 0.1593017578125 in
  Pow ((0.8359375 + 18.8515625 * xP) / (1 + 18.6875 * xP))%float 134.034375.

Definition pqInv (x : float) : float :=
  let xP := Pow x 7.460772656268214e-03 in
  let v := (1e4 * Pow ((0.8359375 - xP) / (18.6875 * xP - 18.8515625))
                      6.277394636015326)%float in
  if IsNaN v then 0%float else v.

(** [func (c *Color) sRGB() (r, g, b float64)]. *)
Definition sRGB (c : Color) : float * float * float :=
  (let jz := col_j c + 1.6295499532821566e-11 in
   let iz := jz / (0.44 + 0.56 * jz) in
   let l := pqInv (iz + 1.386050432715393e-1 * col_a c + 5.804731615611869e-2 * col_b c) in
   let m := pqInv (iz - 1.386050432715393e-1 * col_a c - 5.804731615611891e-2 * col_b c) in
   let s := pqInv (iz - 9.601924202631895e-2 * col_a c - 8.118918960560390e-1 * col_b c) in
   let x := 1.661373055774069e+00 * l - 9.145230923250668e-01 * m + 2.313620767186147e-01 * s in
   let y := - 3.250758740427037e-01 * l + 1.571847038366936e+00 * m - 2.182538318672940e-01 * s in
   let z := - 9.098281098284756e-02 * l - 3.127282905230740e-01 * m + 1.522766561305260e+00 * s in
   let r := Round (255 * rgbLinearToStandard (3.2404542 * x - 1.5371385 * y - 0.4985314 * z)) in
   let g := Round (255 * rgbLinearToStandard (- 0.9692660 * x + 1.8760108 * y + 0.0415560 * z)) in
   let b := Round (255 * rgbLinearToStandard (0.0556434 * x - 0.2040259 * y + 1.0572252 * z)) in
   (r, g, b))%float.

(** [func (c *Color) RGBA() (r, g, b, a uint32)]. *)
Definition RGBA (c : Color) : Z * Z * Z * Z :=
  let '(sR, sG, sB) := sRGB c in
  (uint32_of_float (sR * 65535.0)%float,
   uint32_of_float (sG * 65535.0)%float,
   uint32_of_float (sB * 65535.0)%float,
   0xFFFF).

(** [func FromHex(hexStr string) *Color]. *)
Definition FromHex (hexStr : string) : option Color :=
  c0 <- byte_at hexStr 0 ;;
  let hexStr :=
    if c0 =? 35 (* '#' *) then substring 1 (String.length hexStr - 1) hexStr
    else hexStr in
  if negb (slen hexStr =? 6) then Some black
  else
    h0 <- byte_at hexStr 0 ;; h1 <- byte_at hexStr 1 ;;
    h2 <- byte_at hexStr 2 ;; h3 <- byte_at hexStr 3 ;;
    h4 <- byte_at hexStr 4 ;; h5 <- byte_at hexStr 5 ;;
    Some
      (let r := rgbStandardToLinear (float64_of_int (hexPair h0 h1) / 0xFF) in
       let g := rgbStandardToLinear (float64_of_int (hexPair h2 h3) / 0xFF) in
       let b := rgbStandardToLinear (float64_of_int (hexPair h4 h5) / 0xFF) in
       let x := 0.4124564 * r + 0.3575761 * g + 0.1804375 * b in
       let y := 0.2126729 * r + 0.7151522 * g + 0.0721750 * b in
       let z := 0.0193339 * r + 0.1191920 * g + 0.9503041 * b in
       let lP := pq (0.674207838 * x + 0.382799340 * y - 0.047570458 * z) in
       let mP := pq (0.149284160 * x + 0.739628340 * y + 0.083327300 * z) in
       let sP := pq (0.070941080 * x + 0.174768000 * y + 0.670970020 * z) in
       let iZ := 0.5 * (lP + mP) in
       mkColor ((0.44 * iZ) / (1 - 0.56 * iZ) - 1.6295499532821566e-11)
               (3.524000 * lP - 4.066708 * mP + 0.542708 * sP)
               (0.199076 * lP + 1.096799 * mP - 1.295875 * sP))%float.

(** The [else] branch of [NewGradient]: the offsets of [n] stops given
    without offsets.  [spread] is its loop
    [for i := 1; i < len(offsets)-1; i++], run over the indices it visits. *)
Fixpoint spread (idxs : list nat) (n : Z) (offsets : list float)
  : option (list float) :=
  match idxs with
  | [] => Some offsets
  | i :: idxs' =>
      offsets' <- store offsets (Z.of_nat i)
                    (1.0 / float64_of_int n * float64_of_int (Z.of_nat i))%float ;;
      spread idxs' n offsets'
  end.

Definition evenOffsets (n : nat) : option (list float) :=
  offsets <- store (repeat 0%float n) (Z.of_nat n - 1) 1.0%float ;;
  spread (seq 1 (n - 2)) (Z.of_nat n) offsets.

(** The last loop of [NewGradient], [for i := range stops], entered at
    index [i] with [rest] the stop strings from [i] on. *)
Fixpoint fill (rest : list string) (offsets : list float) (i : Z)
  : option (list stop) :=
  match rest with
  | [] => Some []
  | h :: rest' =>
      c <- FromHex h ;;
      o <- index offsets i ;;
      g <- fill rest' offsets (i + 1) ;;
      Some (mkStop c o :: g)
  end.

(** [func NewGradient(stops []string, offsets []float64) *Gradient]. *)
Definition NewGradient (stops : list string) (offsets : list float)
  : option Gradient :=
  if len stops =? 0 then Some BadGradient
  else if (len offsets >? 0)
          && (negb (len offsets =? len stops) || negb (IsSorted offsets))
  then Some BadGradient
  else
    offsets <- (if len offsets >? 0 then Some offsets
                else evenOffsets (List.length stops)) ;;
    fill stops offsets 0.

End WithPow.

(** ** The earlier revision of [RGBA]

    The repository holds an earlier revision of the package, whose [RGBA]
    scales the linear channels. *)
Module Earlier.
Section WithPow.

Variable Pow : float -> float -> float.
Variable uint32_unspecified : float -> Z.

(** [func (c *Color) lms() (l, m, s float64)]. *)
Definition lms (c : Color) : float * float * float :=
  (let jz := col_j c + 1.6295499532821566e-11 in
   let iz := jz / (0.44 + 0.56 * jz) in
   (pqInv Pow (iz + 1.386050432715393e-1 * col_a c + 5.804731615611869e-2 * col_b c),
    pqInv Pow (iz - 1.386050432715393e-1 * col_a c - 5.804731615611891e-2 * col_b c),
    pqInv Pow (iz - 9.601924202631895e-2 * col_a c - 8.118918960560390e-1 * col_b c)))%float.

(** [func (c *Color) xyz() (x, y, z float64)]. *)
Definition xyz (c : Color) : float * float * float :=
  let '(l, m, s) := lms c in
  (1.661373055774069e+00 * l - 9.145230923250668e-01 * m + 2.313620767186147e-01 * s,
   - 3.250758740427037e-01 * l + 1.571847038366936e+00 * m - 2.182538318672940e-01 * s,
   9.098281098284756e-02 * l - 3.127282905230740e-01 * m + 1.522766561305260e+00 * s)%float.

(** [func (c *Color) lrgb() (r, g, b float64)]. *)
Definition lrgb (c : Color) : float * float * float :=
  let '(x, y, z) := xyz c in
  (3.2409699419045214 * x - 1.5373831775700935 * y - 0.49861076029300328 * z,
   - 0.96924363628087983 * x + 1.8759675015077207 * y + 0.041555057407175613 * z,
   0.055630079696993609 * x - 0.20397695888897657 * y + 1.0569715142428786 * z)%float.

(** [func (c *Color) RGBA() (r, g, b, a uint32)]. *)
Definition RGBA (c : Color) : Z * Z * Z * Z :=
  let '(r1, g1, b1) := lrgb c in
  (uint32_of_float uint32_unspecified (r1 * 65535.0 + 0.5)%float,
   uint32_of_float uint32_unspecified (g1 * 65535.0 + 0.5)%float,
   uint32_of_float uint32_unspecified (b1 * 65535.0 + 0.5)%float,
   0xFFFF).

End WithPow.
End Earlier.

(** The arguments on which [NewGradient] returns [BadGradient]: no stops, or
    offsets that are not as many as the stops or not sorted for [sort.IsSorted]. *)
Definition rejected (stops : list string) (offsets : list float) : Prop :=
  stops = []
  \/ (offsets <> []
      /\ (List.length offsets <> List.length stops \/ IsSorted offsets = false)).

(** [f := float64(pos) / float64(max)] in [ColorAt]. *)
Definition sample (pos max : Z) : float :=
  (float64_of_int pos / float64_of_int max)%float.

(** ** Sample values *)

Definition two_stops : Gradient :=
  [mkStop (mkColor 0.25 0.5 (-0.5)) 0; mkStop (mkColor 0.75 (-0.25) 0.125) 1].

(** A gradient whose first offset is NaN, as
    [NewGradient(stops, []float64{NaN, 0.5})] builds them. *)
Definition nan_first : Gradient :=
  [mkStop (mkColor 0.25 0.5 (-0.5)) nan; mkStop (mkColor 0.75 (-0.25) 0.125) 0.5].

(** Values of [math.Pow], as triples [(x, y, x^y)]: the powers that the
    conversions of ["#000000"] and ["#ffffff"] to [Color] and back and that
    of ["#f00000"] to [Color] take, as the C library's [pow] computes them,
    within one unit in the last place. *)
Definition pow_values : list (float * float * float) :=
  [(0x1.ac00000000000p-1, 0x1.0c1199999999ap+7, 0x1.45c3ea5ce3f76p-35);
   (0x1.45c3ea5ce3f75p-35, 0x1.e8f2fe8fc2984p-8, 0x1.ac00000000000p-1);
   (0x1.45c3ea5ce3f77p-35, 0x1.e8f2fe8fc2984p-8, 0x1.ac00000000000p-1);
   (0x1.45c3ea5ce3f76p-35, 0x1.e8f2fe8fc2984p-8, 0x1.ac00000000000p-1);
   (0x1.979c1db0ab058p-14, 0x1.4640000000000p-3, 0x1.d60d1a3baf87ap-3);
   (0x1.f3c36f12a790cp-1, 0x1.0c1199999999ap+7, 0x1.401ab7d791f08p-5);
   (0x1.97ca4fda5a209p-14, 0x1.4640000000000p-3, 0x1.d615965acbd6cp-3);
   (0x1.f3c3adc4a95f5p-1, 0x1.0c1199999999ap+7, 0x1.402fbef5c3d73p-5);
   (0x1.9802222e2da86p-14, 0x1.4640000000000p-3, 0x1.d61fd5fe57790p-3);
   (0x1.f3c3f97c865c8p-1, 0x1.0c1199999999ap+7, 0x1.40492611e05eap-5);
   (0x1.401ab7d791f09p-5, 0x1.e8f2fe8fc2984p-8, 0x1.f3c36f12a790cp-1);
   (0x1.d60d1a3baf898p-3, 0x1.91c0d56e7162bp+2, 0x1.979c1db0ab0f9p-14);
   (0x1.402fbef5c3d73p-5, 0x1.e8f2fe8fc2984p-8, 0x1.f3c3adc4a95f5p-1);
   (0x1.d615965acbd52p-3, 0x1.91c0d56e7162bp+2, 0x1.97ca4fda5a17ap-14);
   (0x1.40492611e05ebp-5, 0x1.e8f2fe8fc2984p-8, 0x1.f3c3f97c865c8p-1);
   (0x1.d61fd5fe57778p-3, 0x1.91c0d56e7162bp+2, 0x1.9802222e2da01p-14);
   (0x1.fffffcd43cb8fp-1, 0x1.aaaaaaaaaaaabp-2, 0x1.fffffeadc3f72p-1);
   (0x1.0000028d18cdap+0, 0x1.aaaaaaaaaaaabp-2, 0x1.000001101faa4p+0);
   (0x1.ffffff363c026p-1, 0x1.aaaaaaaaaaaabp-2, 0x1.ffffffabee565p-1);
   (0x1.e373d4e4aa6ddp-1, 0x1.3333333333333p+1, 0x1.be23d4bf8981bp-1);
   (0x1.0619c9e8779ffp-15, 0x1.4640000000000p-3, 0x1.8851de295d768p-3);
   (0x1.f12c145211bfep-1, 0x1.0c1199999999ap+7, 0x1.3ef2db73d8745p-6);
   (0x1.4253abfaf15eap-16, 0x1.4640000000000p-3, 0x1.6b12fff406dc6p-3);
   (0x1.effa035278db3p-1, 0x1.0c1199999999ap+7, 0x1.cdf4df0f0f79dp-7);
   (0x1.d04f107550f59p-18, 0x1.4640000000000p-3, 0x1.348eeaf0112d9p-3);
   (0x1.ed4d3260c2d7dp-1, 0x1.0c1199999999ap+7, 0x1.bf87a86511ecfp-8)]%float.

Fixpoint lookup_pow (t : list (float * float * float)) (x y : float) : float :=
  match t with
  | [] => nan
  | (x', y', r) :: t' =>
      if (x =? x')%float && (y =? y')%float then r else lookup_pow t' x y
  end.

(** A stand-in for [math.Pow] to run the definitions on: the special cases
    Go documents for a base [1] and for a base [0] with a positive exponent,
    the values above, and NaN elsewhere. *)
Definition pow_table (x y : float) : float :=
  if (x =? 1)%float then 1%float
  else if (x =? 0)%float && (0 <? y)%float then 0%float
  else lookup_pow pow_values x y.

(** ** [FromHex] on black *)

(** The colour [FromHex] builds once [lP], [mP] and [sP] are one value [p],
    as they are on ["#000000"], where each is [pq(0)]. *)
Definition from_grey (p : float) : Color :=
  (let iZ := 0.5 * (p + p) in
   mkColor ((0.44 * iZ) / (1 - 0.56 * iZ) - 1.6295499532821566e-11)
           (3.524000 * p - 4.066708 * p + 0.542708 * p)
           (0.199076 * p + 1.096799 * p - 1.295875 * p))%float.

(** The positive double of mantissa [m] and exponent [-87]: the doubles of
    the binade of [pq(0)], [2^-35 <= p < 2^-34], are those of
    [2^52 <= m < 2^53]. *)
Definition binade_pq0 (m : Z) : float :=
  SF2Prim (S754_finite false (Z.to_pos m) (-87)).

(** The mantissa of the double nearest to [0.8359375^134.034375],
    [0x1.45c3ea5ce3f76p-35]. *)
Definition pq0_mantissa : Z := 5730923673698166.

(** What the conversion of black asks of [math.Pow]: [Pow(0, y) = +0] at the
    exponent of [pq], as Go documents it, and a value of [Pow(0.8359375,
    134.034375)] within 100000 units in the last place of the nearest
    double. *)
Definition accurate_on_black (Pow : float -> float -> float) : Prop :=
  Pow 0%float 0.1593017578125%float = 0%float
  /\ exists m : Z,
       pq0_mantissa - 100000 <= m <= pq0_mantissa + 100000
       /\ Pow 0.8359375%float 134.034375%float = binade_pq0 m.

(** A colour that is not [Color(0,0,0)] and whose components are all within
    [1e-21] of zero. *)
Definition almost_black (c : Color) : bool :=
  negb (Color_eqb c black)
  && (abs (col_j c) <=? 1e-21)%float
  && (abs (col_a c) <=? 1e-21)%float
  && (abs (col_b c) <=? 1e-21)%float.

(** [f] holds on the [n] integers from [lo] on. *)
Fixpoint all_from (f : Z -> bool) (lo : Z) (n : nat) : bool :=
  match n with
  | O => true
  | S n' => f lo && all_from f (lo + 1) n'
  end.

(** [uint32(float64(k) * 65535.0)] is [65535 * k]. *)
Definition byte_scaled (k : Z) : bool :=
  match trunc (float64_of_int k * 65535.0)%float with
  | Some z => z =? k * 65535
  | None => false
  end.

(** ** The rest of the package *)

(** The colour [FromHex] builds from the three channel bytes it has read:
    its steps from [hex string -> sRGB -> lRGB] on. *)
Definition rgb8_to_Color (Pow : float -> float -> float) (r8 g8 b8 : Z) : Color :=
  (let r := rgbStandardToLinear Pow (float64_of_int r8 / 0xFF) in
   let g := rgbStandardToLinear Pow (float64_of_int g8 / 0xFF) in
   let b := rgbStandardToLinear Pow (float64_of_int b8 / 0xFF) in
   let x := 0.4124564 * r + 0.3575761 * g + 0.1804375 * b in
   let y := 0.2126729 * r + 0.7151522 * g + 0.0721750 * b in
   let z := 0.0193339 * r + 0.1191920 * g + 0.9503041 * b in
   let lP := pq Pow (0.674207838 * x + 0.382799340 * y - 0.047570458 * z) in
   let mP := pq Pow (0.149284160 * x + 0.739628340 * y + 0.083327300 * z) in
   let sP := pq Pow (0.070941080 * x + 0.174768000 * y + 0.670970020 * z) in
   let iZ := 0.5 * (lP + mP) in
   mkColor ((0.44 * iZ) / (1 - 0.56 * iZ) - 1.6295499532821566e-11)
           (3.524000 * lP - 4.066708 * mP + 0.542708 * sP)
           (0.199076 * lP + 1.096799 * mP - 1.295875 * sP))%float.

(** The byte of a character, and a string of six characters. *)
Definition code (a : ascii) : Z := Z.of_N (N_of_ascii a).

Definition six (a0 a1 a2 a3 a4 a5 : ascii) : string :=
  String a0 (String a1 (String a2 (String a3 (String a4 (String a5 ""))))).

(** [fmt.Sprintf("%02x", v)] for a [uint8]: two lowercase hexadecimal
    digits. *)
Definition hexdigit (d : Z) : ascii :=
  ascii_of_N (Z.to_N (if d <? 10 then 48 + d else 87 + d)).

Definition fmt_02x (v : Z) : string :=
  String (hexdigit (v / 16)) (String (hexdigit (v mod 16)) "").

Definition is_lower_hex (a : ascii) : bool :=
  ((48 <=? code a) && (code a <=? 57)) || ((97 <=? code a) && (code a <=? 102)).

Section Hex.

Variable Pow : float -> float -> float.

(** What [uint8(x)] yields when the integer part of [x] is not a [uint8]:
    Go leaves the value to the implementation; it is a [uint8]. *)
Variable uint8_unspecified : float -> Z.

Definition uint8_of_float (x : float) : Z :=
  match trunc x with
  | Some z => if (0 <=? z) && (z <? 256) then z else u8 (uint8_unspecified x)
  | None => u8 (uint8_unspecified x)
  end.

(** [func (c *Color) Hex() string]. *)
Definition Hex (c : Color) : string :=
  let '(r, g, b) := sRGB Pow c in
  String "#" (fmt_02x (uint8_of_float r) ++ fmt_02x (uint8_of_float g)
              ++ fmt_02x (uint8_of_float b)).

End Hex.

(** ** [GradientColor] of package [lipgloss]

    [type GradientColor struct { g *jzazbz.Gradient; Stops []string;
    Offsets []float64 }]: [gc_g] is [None] for the nil pointer. *)
Record GradientColor : Set := mkGradientColor {
  gc_g : option Gradient;
  Stops : list string;
  Offsets : list float
}.

Section GradientColor.

Variable Pow : float -> float -> float.
Variable uint32_unspecified : float -> Z.

(** [func (gc *GradientColor) init()]: the receiver after the call. *)
Definition GradientColor_init (gc : GradientColor) : option GradientColor :=
  match gc_g gc with
  | Some _ => Some gc
  | None =>
      g <- NewGradient Pow (Stops gc) (Offsets gc) ;;
      Some (mkGradientColor (Some g) (Stops gc) (Offsets gc))
  end.

(** [func (gc *GradientColor) RGBA() (r, g, b, a uint32)]: the four values
    and the receiver after the call. *)
Definition GradientColor_RGBA (gc : GradientColor)
  : option (Z * Z * Z * Z * GradientColor) :=
  gc' <- GradientColor_init gc ;;
  g <- gc_g gc' ;;
  c <- Gradient_Color g 0 ;;
  Some (RGBA Pow uint32_unspecified c, gc').

End GradientColor.

(** No component is NaN. *)
Definition Color_has_no_NaN (c : Color) : bool :=
  negb (is_nan (col_j c)) && negb (is_nan (col_a c)) && negb (is_nan (col_b c)).

(** [fmt_02x v] is two lowercase hexadecimal digits that [hexPair] reads
    back as [v]. *)
Definition fmt_02x_reads_back (v : Z) : bool :=
  match fmt_02x v with
  | String d1 (String d2 EmptyString) =>
      is_lower_hex d1 && is_lower_hex d2 && (hexPair (code d1) (code d2) =? v)
  | _ => false
  end.

(** A gradient with an offset given twice. *)
Definition repeated_offsets : Gradient :=
  [mkStop (mkColor 0.25 0.5 (-0.5)) 0; mkStop (mkColor 0.5 0 0) 0.5;
   mkStop (mkColor 0.75 0 0.25) 0.5; mkStop (mkColor 1 0.25 0) 1].

(** * Properties *)

(** ** Slices *)

Lemma len_nonneg {A : Type} (l : list A) : 0 <= len l.
Proof. unfold len. lia. Qed.

Lemma len_cons {A : Type} (x : A) (l : list A) : len (x :: l) = len l + 1.
Proof. unfold len. cbn [List.length]. lia. Qed.

Lemma index_nth {A : Type} (l : list A) (k : nat) :
  index l (Z.of_nat k) = nth_error l k.
Proof.
  unfold index. destruct (Z.ltb_spec (Z.of_nat k) 0) as [H | H]; [lia |].
  now rewrite Nat2Z.id.
Qed.

Lemma index_in_range {A : Type} (l : list A) (i : Z) :
  0 <= i < len l -> exists x, index l i = Some x.
Proof.
  intros [H0 H1]. unfold index, len in *.
  destruct (Z.ltb_spec i 0) as [H | _]; [lia |].
  destruct (nth_error l (Z.to_nat i)) as [x |] eqn:E; [now exists x |].
  apply nth_error_None in E. lia.
Qed.

Lemma index_out_of_range {A : Type} (l : list A) (i : Z) :
  i < 0 \/ len l <= i -> index l i = None.
Proof.
  intros H. unfold index, len in *.
  destruct (Z.ltb_spec i 0) as [_ | H0]; [reflexivity |].
  apply nth_error_None. lia.
Qed.

(** ** The scan of [ColorAt] *)

Lemma scan_bounds (f : float) (rest : list stop) (s : Z) :
  s <= scan f rest s <= s + len rest.
Proof.
  revert s. induction rest as [| st rest IH]; intros s; cbn [scan].
  - unfold len; cbn. lia.
  - rewrite len_cons. destruct (f <? Offset st)%float.
    + pose proof (len_nonneg rest). lia.
    + specialize (IH (s + 1)). lia.
Qed.

(** The scan stops at the first stop whose offset [f] is below. *)
Lemma scan_first (f : float) (rest : list stop) (s : Z) (k : nat) (hi : stop) :
  nth_error rest k = Some hi ->
  (f <? Offset hi)%float = true ->
  (forall i st, (i < k)%nat -> nth_error rest i = Some st ->
                (f <? Offset st)%float = false) ->
  scan f rest s = s + Z.of_nat k.
Proof.
  revert s k. induction rest as [| st rest IH]; intros s k Hk Hhi Hbefore.
  - destruct k; discriminate.
  - destruct k as [| k]; cbn [scan].
    + injection Hk as ->. rewrite Hhi. lia.
    + rewrite (Hbefore 0%nat st) by (cbn; (lia || reflexivity)).
      rewrite (IH (s + 1) k); [lia | exact Hk | exact Hhi |].
      intros i st' Hi Hst. apply (Hbefore (S i)); [lia | exact Hst].
Qed.

(** With no such stop it runs to the end. *)
Lemma scan_none (f : float) (rest : list stop) (s : Z) :
  (forall st, In st rest -> (f <? Offset st)%float = false) ->
  scan f rest s = s + len rest.
Proof.
  revert s. induction rest as [| st rest IH]; intros s Hall; cbn [scan].
  - unfold len; cbn. lia.
  - rewrite (Hall st) by now left. rewrite len_cons, IH; [lia |].
    intros st' Hin. apply Hall. now right.
Qed.

(** Where the scan stops short of the end, [f] is below that stop's offset
    and below none before it. *)
Lemma scan_stops (f : float) (rest : list stop) (s : Z) :
  scan f rest s < s + len rest ->
  exists k hi, scan f rest s = s + Z.of_nat k /\ nth_error rest k = Some hi
               /\ (f <? Offset hi)%float = true
               /\ forall i st, (i < k)%nat -> nth_error rest i = Some st ->
                               (f <? Offset st)%float = false.
Proof.
  revert s. induction rest as [| st rest IH]; intros s; cbn [scan].
  - unfold len; cbn. lia.
  - rewrite len_cons. destruct (f <? Offset st)%float eqn:E.
    + intros _. exists 0%nat, st. repeat split; [lia | exact E |].
      intros i st' Hi. lia.
    + intros H. destruct (IH (s + 1)) as (k & hi & Hs & Hk & Hhi & Hb); [lia |].
      exists (S k), hi. repeat split; [lia | exact Hk | exact Hhi |].
      intros [| i] st' Hi Hst.
      * cbn in Hst. injection Hst as <-. exact E.
      * apply (Hb i); [lia | exact Hst].
Qed.

(** ** [ColorAt] past its two [switch]es *)

Lemma ColorAt_interior (g : Gradient) (pos max : Z) :
  2 <= len g -> pos <> 0 -> pos <> max ->
  ColorAt g pos max =
    let f := sample pos max in
    let s := scan f g 0 in
    if s =? 0 then st <- index g 0 ;; Some (stop_Color st)
    else if s =? len g then st <- index g (len g - 1) ;; Some (stop_Color st)
    else
      lo <- index g (s - 1) ;;
      hi <- index g s ;;
      Some (blend (stop_Color lo) (stop_Color hi)
                  ((f - Offset lo) / (Offset hi - Offset lo))%float).
Proof.
  intros Hlen Hpos Hmax. unfold ColorAt, sample.
  destruct (Z.eqb_spec (len g) 0); [lia |].
  destruct (Z.eqb_spec (len g) 1); [lia |].
  destruct (Z.eqb_spec pos 0); [contradiction |].
  destruct (Z.eqb_spec pos max); [contradiction |].
  reflexivity.
Qed.

Lemma ColorAt_first (g : Gradient) (max : Z) :
  1 <= len g ->
  exists st, index g 0 = Some st /\ ColorAt g 0 max = Some (stop_Color st).
Proof.
  intros Hlen. destruct (index_in_range g 0) as [st Hst]; [lia |].
  exists st. split; [exact Hst |]. unfold ColorAt.
  destruct (Z.eqb_spec (len g) 0); [lia |].
  destruct (Z.eqb_spec (len g) 1); rewrite ?Z.eqb_refl, Hst; reflexivity.
Qed.

Lemma ColorAt_last (g : Gradient) (max : Z) :
  2 <= len g -> max <> 0 ->
  exists st, index g (len g - 1) = Some st
             /\ ColorAt g max max = Some (stop_Color st).
Proof.
  intros Hlen Hmax. destruct (index_in_range g (len g - 1)) as [st Hst]; [lia |].
  exists st. split; [exact Hst |]. unfold ColorAt.
  destruct (Z.eqb_spec (len g) 0); [lia |].
  destruct (Z.eqb_spec (len g) 1); [lia |].
  destruct (Z.eqb_spec max 0); [contradiction |].
  rewrite Z.eqb_refl, Hst. reflexivity.
Qed.

(** ** C4: the two ends of a gradient *)

(** C4.  On a gradient of two stops or more and for every [max > 0],
    [ColorAt(0, max)] is the colour of the first stop and [ColorAt(max, max)]
    the colour of the last one, as they are stored: no interpolation takes
    place. *)
Theorem ColorAt_boundary_exact (g : Gradient) (max : Z) :
  2 <= len g -> 0 < max ->
  (exists st, index g 0 = Some st /\ ColorAt g 0 max = Some (stop_Color st))
  /\ (exists st, index g (len g - 1) = Some st
                 /\ ColorAt g max max = Some (stop_Color st)).
Proof.
  intros Hlen Hmax. split.
  - apply ColorAt_first. lia.
  - apply ColorAt_last; lia.
Qed.

Lemma ColorAt_boundary_exact_witness :
  (exists st, index two_stops 0 = Some st
              /\ ColorAt two_stops 0 7 = Some (stop_Color st))
  /\ (exists st, index two_stops (len two_stops - 1) = Some st
                 /\ ColorAt two_stops 7 7 = Some (stop_Color st)).
Proof.
  apply (ColorAt_boundary_exact two_stops 7); [vm_compute; discriminate | lia].
Defined.

(** ** C9: the stop at an index *)

Lemma Gradient_Color_in_range (g : Gradient) (idx : Z) :
  0 <= idx < len g ->
  exists st, index g idx = Some st /\ Gradient_Color g idx = Some (stop_Color st).
Proof.
  intros H. destruct (index_in_range g idx H) as [st Hst]. exists st.
  split; [exact Hst |]. unfold Gradient_Color.
  destruct (Z.gtb_spec (len g) idx); [| lia]. now rewrite Hst.
Qed.

Lemma Gradient_Color_past_end (g : Gradient) (idx : Z) :
  len g <= idx -> Gradient_Color g idx = Some black.
Proof.
  intros H. unfold Gradient_Color.
  destruct (Z.gtb_spec (len g) idx); [lia | reflexivity].
Qed.

Lemma Gradient_Color_negative (g : Gradient) (idx : Z) :
  idx < 0 -> Gradient_Color g idx = None.
Proof.
  intros H. unfold Gradient_Color. pose proof (len_nonneg g).
  destruct (Z.gtb_spec (len g) idx); [| lia].
  rewrite index_out_of_range by lia. reflexivity.
Qed.

(** C9.  [Color(idx)] guards its index with [len(g.stops) > idx] alone, which
    every negative index passes: on every gradient, the sentinel too,
    [Color(-1)] indexes the stops at [-1] and panics, where the stop's colour
    is returned for an index in range and black for one at or past the
    end. *)
Theorem Gradient_Color_minus_one_panics (g : Gradient) :
  Gradient_Color g (-1) = None.
Proof. apply Gradient_Color_negative. lia. Qed.

(** ** C3: sampling between the ends *)

Lemma ColorAt_clamps_last (g : Gradient) (pos max : Z) :
  2 <= len g -> pos <> 0 -> pos <> max ->
  (forall st, In st g -> (sample pos max <? Offset st)%float = false) ->
  exists st, index g (len g - 1) = Some st
             /\ ColorAt g pos max = Some (stop_Color st).
Proof.
  intros Hlen Hpos Hmax Hall.
  destruct (index_in_range g (len g - 1)) as [st Hst]; [lia |].
  exists st. split; [exact Hst |].
  rewrite ColorAt_interior by assumption. cbv zeta.
  rewrite (scan_none _ _ _ Hall), Z.add_0_l.
  destruct (Z.eqb_spec (len g) 0); [lia |].
  rewrite Z.eqb_refl, Hst. reflexivity.
Qed.

Lemma ColorAt_bracket (g : Gradient) (pos max : Z) (s : nat) (hi : stop) :
  2 <= len g -> pos <> 0 -> pos <> max ->
  nth_error g s = Some hi ->
  (sample pos max <? Offset hi)%float = true ->
  (forall i st, (i < s)%nat -> nth_error g i = Some st ->
                (sample pos max <? Offset st)%float = false) ->
  match s with
  | O => ColorAt g pos max = Some (stop_Color hi)
  | S s' =>
      exists lo, nth_error g s' = Some lo
        /\ ColorAt g pos max =
             Some (blend (stop_Color lo) (stop_Color hi)
                     ((sample pos max - Offset lo) / (Offset hi - Offset lo))%float)
  end.
Proof.
  intros Hlen Hpos Hmax Hhi Hlt Hbefore.
  rewrite ColorAt_interior by assumption. cbv zeta.
  rewrite (scan_first _ _ 0 s hi Hhi Hlt Hbefore), Z.add_0_l.
  assert (Hs : (s < List.length g)%nat) by (apply nth_error_Some; congruence).
  destruct s as [| s'].
  - cbn [Z.of_nat Z.eqb]. rewrite (index_nth g 0 : index g 0 = _), Hhi. reflexivity.
  - destruct (nth_error g s') as [lo |] eqn:Hlo;
      [| apply nth_error_None in Hlo; lia].
    exists lo. split; [reflexivity |].
    destruct (Z.eqb_spec (Z.of_nat (S s')) 0); [lia |].
    destruct (Z.eqb_spec (Z.of_nat (S s')) (len g)); [unfold len in *; lia |].
    replace (Z.of_nat (S s') - 1) with (Z.of_nat s') by lia.
    rewrite !index_nth, Hlo, Hhi. reflexivity.
Qed.

(** The gradient [NewGradient(["#ff0000", "#0000ff"], [])] builds. *)
Lemma NewGradient_red_blue (Pow : float -> float -> float) :
  exists c1 c2,
    FromHex Pow "#ff0000" = Some c1 /\ FromHex Pow "#0000ff" = Some c2
    /\ NewGradient Pow ["#ff0000"; "#0000ff"]%string []
       = Some [mkStop c1 0; mkStop c2 1].
Proof.
  destruct (FromHex Pow "#ff0000") as [c1 |] eqn:E1; [| discriminate E1].
  destruct (FromHex Pow "#0000ff") as [c2 |] eqn:E2; [| discriminate E2].
  exists c1, c2. repeat split.
  unfold NewGradient. cbn [len List.length Z.of_nat Z.eqb Z.gtb Z.compare andb].
  cbn [fill evenOffsets]. unfold fill. rewrite E1, E2. reflexivity.
Qed.

(** C3.  On a gradient of two stops or more, at a position strictly between
    [0] and [max], [ColorAt] takes [f = position/max] and the first stop [s]
    whose offset [f] is below: with no such stop it returns the colour of the
    last stop, with [s = 0] that of the first one, and otherwise the blend of
    the stops [s-1] and [s] at [(f - offset[s-1]) / (offset[s] - offset[s-1])].
    On [NewGradient(["#ff0000", "#0000ff"], [])], [ColorAt(5, 10)] is the
    blend of [FromHex("#ff0000")] and [FromHex("#0000ff")] at [0.5]. *)
Theorem ColorAt_interpolates :
  (forall (g : Gradient) (pos max : Z),
     2 <= len g -> 0 < pos < max ->
     let f := sample pos max in
     ((forall st, In st g -> (f <? Offset st)%float = false) ->
      exists st, index g (len g - 1) = Some st
                 /\ ColorAt g pos max = Some (stop_Color st))
     /\ (forall (s : nat) (hi : stop),
           nth_error g s = Some hi ->
           (f <? Offset hi)%float = true ->
           (forall i st, (i < s)%nat -> nth_error g i = Some st ->
                         (f <? Offset st)%float = false) ->
           match s with
           | O => ColorAt g pos max = Some (stop_Color hi)
           | S s' =>
               exists lo, nth_error g s' = Some lo
                 /\ ColorAt g pos max =
                      Some (blend (stop_Color lo) (stop_Color hi)
                              ((f - Offset lo) / (Offset hi - Offset lo))%float)
           end))
  /\ (forall Pow : float -> float -> float,
        exists c1 c2 g,
          FromHex Pow "#ff0000" = Some c1 /\ FromHex Pow "#0000ff" = Some c2
          /\ NewGradient Pow ["#ff0000"; "#0000ff"]%string [] = Some g
          /\ ColorAt g 5 10 = Some (blend c1 c2 0.5)).
Proof.
  split.
  - intros g pos max Hlen Hpos f. split.
    + apply ColorAt_clamps_last; lia.
    + intros s hi. apply ColorAt_bracket; lia.
  - intros Pow. destruct (NewGradient_red_blue Pow) as (c1 & c2 & E1 & E2 & Eg).
    exists c1, c2, [mkStop c1 0; mkStop c2 1].
    split; [exact E1 |]. split; [exact E2 |]. split; [exact Eg |].
    reflexivity.
Qed.

Lemma ColorAt_interpolates_witness :
  ColorAt two_stops 1 4 =
    Some (blend (mkColor 0.25 0.5 (-0.5)) (mkColor 0.75 (-0.25) 0.125) 0.25).
Proof.
  destruct (proj2 (proj1 ColorAt_interpolates two_stops 1 4
                     ltac:(vm_compute; discriminate) ltac:(lia))
              1%nat (mkStop (mkColor 0.75 (-0.25) 0.125) 1)
              eq_refl eq_refl)
    as (lo & Hlo & H).
  - intros [| i] st Hi Hst; [| lia]. injection Hst as <-. reflexivity.
  - injection Hlo as <-. exact H.
Defined.

(** ** Binary64 rounding *)

Lemma digits2_pos_bounds (p : positive) :
  2 ^ (Zpos (digits2_pos p) - 1) <= Zpos p < 2 ^ Zpos (digits2_pos p).
Proof.
  induction p as [p IH | p IH |]; cbn [digits2_pos].
  - rewrite Pos2Z.inj_succ.
    replace (Z.succ (Zpos (digits2_pos p)) - 1) with (Z.succ (Zpos (digits2_pos p) - 1)) by lia.
    rewrite !Z.pow_succ_r by lia. lia.
  - rewrite Pos2Z.inj_succ.
    replace (Z.succ (Zpos (digits2_pos p)) - 1) with (Z.succ (Zpos (digits2_pos p) - 1)) by lia.
    rewrite !Z.pow_succ_r by lia. lia.
  - cbn. lia.
Qed.

Lemma shr_1_m (mrs : shr_record) :
  0 <= shr_m mrs -> shr_m (shr_1 mrs) = shr_m mrs / 2.
Proof.
  destruct mrs as [m r s]. cbn [shr_m]. intros Hm.
  destruct m as [| [p | p |] | p]; cbn [shr_1 shr_m]; try lia; try reflexivity.
  - apply Z.div_unique with (r := 1); lia.
  - apply Z.div_unique with (r := 0); lia.
Qed.

Lemma pow2_pos (n : Z) : 0 <= n -> 0 < 2 ^ n.
Proof. intros H. apply Z.pow_pos_nonneg; lia. Qed.

Lemma iter_shr_1_m (p : positive) (mrs : shr_record) :
  0 <= shr_m mrs ->
  shr_m (iter_pos shr_1 p mrs) = shr_m mrs / 2 ^ Zpos p.
Proof.
  revert mrs. induction p as [p IH | p IH |]; intros mrs Hm; cbn [iter_pos].
  - pose proof (pow2_pos (Zpos p) ltac:(lia)) as Hp.
    assert (H1 : 0 <= shr_m (shr_1 mrs))
      by (rewrite shr_1_m by lia; apply Z.div_pos; lia).
    assert (H2 : 0 <= shr_m (iter_pos shr_1 p (shr_1 mrs)))
      by (rewrite IH by lia; apply Z.div_pos; lia).
    rewrite IH, IH, shr_1_m by lia.
    rewrite !Z.div_div by lia. f_equal.
    replace (Zpos p~1) with (1 + Zpos p + Zpos p) by lia.
    rewrite !Z.pow_add_r by lia. lia.
  - pose proof (pow2_pos (Zpos p) ltac:(lia)) as Hp.
    assert (H2 : 0 <= shr_m (iter_pos shr_1 p mrs))
      by (rewrite IH by lia; apply Z.div_pos; lia).
    rewrite IH, IH by lia.
    rewrite !Z.div_div by lia. f_equal.
    replace (Zpos p~0) with (Zpos p + Zpos p) by lia.
    rewrite !Z.pow_add_r by lia. lia.
  - rewrite shr_1_m by lia. reflexivity.
Qed.

Lemma shr_record_of_loc_m (m : Z) (l : location) :
  shr_m (shr_record_of_loc m l) = m.
Proof. destruct l as [| []]; reflexivity. Qed.

Lemma round_nearest_even_ge (m : Z) (l : location) :
  m <= round_nearest_even m l.
Proof.
  destruct l as [| []]; cbn [round_nearest_even]; try lia.
  destruct (Z.even m); lia.
Qed.

Lemma Zdigits2_mono (m m' : Z) : 0 < m <= m' -> Zdigits2 m <= Zdigits2 m'.
Proof.
  intros [H0 H]. destruct m as [| p |]; try lia. destruct m' as [| p' |]; try lia.
  cbn [Zdigits2].
  pose proof (digits2_pos_bounds p) as [Hp _].
  pose proof (digits2_pos_bounds p') as [_ Hp'].
  destruct (Z.le_gt_cases (Zpos (digits2_pos p)) (Zpos (digits2_pos p'))) as [| Hlt]; [assumption |].
  assert (2 ^ Zpos (digits2_pos p') <= 2 ^ (Zpos (digits2_pos p) - 1))
    by (apply Z.pow_le_mono_r; lia).
  lia.
Qed.

(** One shift of [binary_round_aux] on a positive mantissa above the
    underflow threshold keeps it positive and above the threshold. *)
Lemma shr_fexp_positive (m e : Z) (l : location) :
  0 < m -> -1074 < Zdigits2 m + e ->
  exists mrs e', shr_fexp prec emax m e l = (mrs, e')
    /\ 0 < shr_m mrs
    /\ forall m', shr_m mrs <= m' -> -1074 < Zdigits2 m' + e'.
Proof.
  intros Hm He. unfold shr_fexp, shr.
  destruct m as [| p |]; try lia. cbn [Zdigits2] in *.
  pose proof (digits2_pos_bounds p) as [Hlo Hhi].
  set (d := Zpos (digits2_pos p)) in *.
  destruct (fexp prec emax (d + e) - e) as [| n | n] eqn:En.
  - eexists _, e. split; [reflexivity |]. rewrite shr_record_of_loc_m.
    split; [lia |]. intros m' Hm'.
    pose proof (Zdigits2_mono (Zpos p) m' ltac:(lia)). cbn [Zdigits2] in *. fold d in H. lia.
  - eexists _, _. split; [reflexivity |].
    rewrite iter_shr_1_m by (rewrite shr_record_of_loc_m; lia).
    rewrite shr_record_of_loc_m.
    assert (Hn : Zpos n <= d - 1).
    { unfold fexp, emin, prec, emax in En. lia. }
    assert (Hpow : 2 ^ Zpos n <= Zpos p).
    { apply Z.le_trans with (2 ^ (d - 1)); [apply Z.pow_le_mono_r; lia | lia]. }
    assert (Hq : 0 < Zpos p / 2 ^ Zpos n).
    { apply Z.div_str_pos. lia. }
    split; [exact Hq |]. intros m' Hm'.
    assert (1 <= Zdigits2 m').
    { destruct m' as [| p' |]; try lia. cbn [Zdigits2]. lia. }
    unfold fexp, emin, prec, emax in En. lia.
  - eexists _, e. split; [reflexivity |]. rewrite shr_record_of_loc_m.
    split; [lia |]. intros m' Hm'.
    pose proof (Zdigits2_mono (Zpos p) m' ltac:(lia)). cbn [Zdigits2] in *. fold d in H. lia.
Qed.

Lemma binary_round_aux_shape (sx : bool) (m e : Z) (l : location) :
  0 < m -> -1074 < Zdigits2 m + e ->
  binary_round_aux prec emax sx m e l = S754_infinity sx
  \/ exists m' e', binary_round_aux prec emax sx m e l = S754_finite sx m' e'.
Proof.
  intros Hm He. unfold binary_round_aux.
  destruct (shr_fexp_positive m e l Hm He) as (mrs & e' & -> & Hpos & Hnext).
  pose proof (round_nearest_even_ge (shr_m mrs) (loc_of_shr_record mrs)) as Hge.
  assert (Hr : 0 < round_nearest_even (shr_m mrs) (loc_of_shr_record mrs)) by lia.
  destruct (shr_fexp_positive _ e' loc_Exact Hr (Hnext _ Hge))
    as (mrs2 & e2 & -> & Hpos2 & _).
  destruct (shr_m mrs2) as [| p |]; try lia.
  destruct (e2 <=? emax - prec); [right; eauto | left; reflexivity].
Qed.

Lemma binary_round_shape (sx : bool) (m : positive) :
  binary_round prec emax sx m 0 = S754_infinity sx
  \/ exists m' e', binary_round prec emax sx m 0 = S754_finite sx m' e'.
Proof.
  unfold binary_round, shl_align.
  destruct (fexp prec emax (Zpos (digits2_pos m) + 0) - 0) as [| n | n] eqn:En.
  - apply binary_round_aux_shape; cbn [Zdigits2]; lia.
  - apply binary_round_aux_shape; cbn [Zdigits2]; lia.
  - apply binary_round_aux_shape; [lia |]. cbn [Zdigits2].
    unfold fexp, emin, prec, emax in *. lia.
Qed.

Lemma binary_round_opp (m : positive) (e : Z) :
  binary_round prec emax true m e = SFopp (binary_round prec emax false m e).
Proof.
  unfold binary_round. destruct (shl_align _ _ _) as [mz ez].
  unfold binary_round_aux. destruct (shr_fexp _ _ _ _ _) as [mrs' e'].
  destruct (shr_fexp _ _ _ _ _) as [mrs'' e''].
  destruct (shr_m mrs''); cbn [SFopp]; try reflexivity.
  destruct (_ <=? _); reflexivity.
Qed.

Lemma valid_binary_opp (x : spec_float) :
  valid_binary (SFopp x) = valid_binary x.
Proof. destruct x; reflexivity. Qed.

Lemma binary_normalize_valid (z : Z) :
  int_range z -> valid_binary (binary_normalize prec emax z 0 false) = true.
Proof.
  unfold int_range. intros Hz.
  assert (Hpos : forall p, Zpos p < 2 ^ 63 ->
            valid_binary (binary_round prec emax false p 0) = true).
  { intros p Hp.
    pose proof (of_uint63_spec (of_Z (Zpos p))) as H.
    rewrite of_Z_spec, Z.mod_small in H by (change wB with (2 ^ 63); lia).
    cbn [binary_normalize] in H. rewrite <- H. apply Prim2SF_valid. }
  destruct z as [| p | p]; cbn [binary_normalize].
  - reflexivity.
  - apply Hpos. lia.
  - rewrite binary_round_opp, valid_binary_opp.
    destruct (Z.eq_dec (Zpos p) (2 ^ 63)) as [E | E].
    + injection E as ->. vm_compute. reflexivity.
    + apply Hpos. lia.
Qed.

(** [float64(z)], as a float of the specification. *)
Lemma float64_of_int_spec (z : Z) :
  int_range z ->
  Prim2SF (float64_of_int z) = binary_normalize prec emax z 0 false.
Proof.
  intros Hz. unfold float64_of_int.
  apply Prim2SF_SF2Prim, binary_normalize_valid, Hz.
Qed.

(** The conversion of a non-zero [int] is not zero and has its sign. *)
Lemma float64_of_int_nonzero (z : Z) :
  int_range z -> z <> 0 ->
  Prim2SF (float64_of_int z) = S754_infinity (z <? 0)
  \/ exists m e, Prim2SF (float64_of_int z) = S754_finite (z <? 0) m e.
Proof.
  intros Hz Hnz. rewrite float64_of_int_spec by exact Hz.
  destruct z as [| p | p]; [contradiction | |]; cbn [binary_normalize Z.ltb Z.compare];
    apply binary_round_shape.
Qed.

(** Dividing by [float64(0)]. *)
Lemma div_by_zero (z : Z) :
  int_range z -> z <> 0 ->
  (float64_of_int z / float64_of_int 0)%float
  = if z <? 0 then neg_infinity else infinity.
Proof.
  intros Hz Hnz. apply Prim2SF_inj. rewrite FloatAxioms.div_spec.
  change (Prim2SF (float64_of_int 0)) with (S754_zero false).
  destruct (float64_of_int_nonzero z Hz Hnz) as [-> | (m & e & ->)];
    destruct (z <? 0); reflexivity.
Qed.

Lemma infinity_ltb (y : float) : (infinity <? y)%float = false.
Proof.
  rewrite FloatAxioms.ltb_spec. change (Prim2SF infinity) with (S754_infinity false).
  destruct (Prim2SF y) as [| [] | | [] ? ?]; reflexivity.
Qed.

Lemma neg_infinity_ltb_inv (y : float) :
  (neg_infinity <? y)%float = false ->
  Prim2SF y = S754_nan \/ Prim2SF y = S754_infinity true.
Proof.
  rewrite FloatAxioms.ltb_spec.
  change (Prim2SF neg_infinity) with (S754_infinity true).
  destruct (Prim2SF y) as [| [] | | [] ? ?]; cbn; intros H;
    try discriminate H; auto.
Qed.

(** ** C10: [ColorAt] on every gradient and every pair of integers *)

Lemma ColorAt_returns (g : Gradient) (pos max : Z) :
  exists c, ColorAt g pos max = Some c.
Proof.
  unfold ColorAt. pose proof (len_nonneg g) as Hlen.
  destruct (Z.eqb_spec (len g) 0) as [E0 | E0]; [eauto |].
  destruct (index_in_range g 0) as [st0 H0]; [lia |].
  destruct (index_in_range g (len g - 1)) as [stn Hn]; [lia |].
  rewrite H0, Hn. cbn [bind].
  destruct (len g =? 1); [eauto |].
  destruct (pos =? 0); [eauto |].
  destruct (pos =? max); [eauto |].
  set (f := (float64_of_int pos / float64_of_int max)%float).
  pose proof (scan_bounds f g 0) as Hs.
  destruct (Z.eqb_spec (scan f g 0) 0); [eauto |].
  destruct (Z.eqb_spec (scan f g 0) (len g)); [eauto |].
  destruct (index_in_range g (scan f g 0 - 1)) as [lo ->]; [lia |].
  destruct (index_in_range g (scan f g 0)) as [hi ->]; [lia |].
  cbn [bind]. eauto.
Qed.

Lemma ColorAt_sentinel (pos max : Z) : ColorAt BadGradient pos max = Some black.
Proof. reflexivity. Qed.

Lemma ColorAt_single (st : stop) (pos max : Z) :
  ColorAt [st] pos max = Some (stop_Color st).
Proof. reflexivity. Qed.

Lemma ColorAt_above_zero_max (g : Gradient) (pos : Z) :
  1 <= len g -> int_range pos -> 0 < pos ->
  sample pos 0 = infinity
  /\ exists st, index g (len g - 1) = Some st
                /\ ColorAt g pos 0 = Some (stop_Color st).
Proof.
  intros Hlen Hr Hpos.
  assert (Hf : sample pos 0 = infinity).
  { unfold sample. rewrite div_by_zero by (assumption || lia).
    destruct (Z.ltb_spec pos 0); [lia | reflexivity]. }
  split; [exact Hf |].
  destruct (Z.eq_dec (len g) 1) as [E1 | E1].
  - destruct (index_in_range g 0) as [st Hst]; [lia |].
    exists st. split; [rewrite E1; exact Hst |]. unfold ColorAt.
    rewrite E1. cbn [Z.eqb]. rewrite Hst. reflexivity.
  - apply ColorAt_clamps_last; try lia.
    intros st _. rewrite Hf. apply infinity_ltb.
Qed.

Lemma ColorAt_below_zero_max (g : Gradient) (pos : Z) (st : stop) :
  int_range pos -> pos < 0 ->
  index g 0 = Some st ->
  (neg_infinity <? Offset st)%float = true ->
  sample pos 0 = neg_infinity /\ ColorAt g pos 0 = Some (stop_Color st).
Proof.
  intros Hr Hpos Hst Hoff.
  assert (Hf : sample pos 0 = neg_infinity).
  { unfold sample. rewrite div_by_zero by (assumption || lia).
    destruct (Z.ltb_spec pos 0); [reflexivity | lia]. }
  split; [exact Hf |].
  assert (Hlen : 1 <= len g).
  { destruct g; [discriminate Hst | rewrite len_cons; pose proof (len_nonneg g); lia]. }
  destruct (Z.eq_dec (len g) 1) as [E1 | E1].
  - unfold ColorAt. rewrite E1. cbn [Z.eqb]. rewrite Hst. reflexivity.
  - apply (ColorAt_bracket g pos 0 0 st); try lia.
    + rewrite <- Hst. symmetry. apply (index_nth g 0).
    + rewrite Hf. exact Hoff.
Qed.

(** [NewGradient] accepts offsets that start with a NaN: [sort.IsSorted] puts
    the NaNs first. *)
Lemma NewGradient_nan_first (Pow : float -> float -> float) :
  exists c1 c2,
    NewGradient Pow ["#ff0000"; "#0000ff"]%string [nan; 0.5%float]
    = Some [mkStop c1 nan; mkStop c2 0.5].
Proof.
  destruct (NewGradient_red_blue Pow) as (c1 & c2 & E1 & E2 & _).
  exists c1, c2. unfold NewGradient.
  cbn [len List.length Z.of_nat Z.eqb Z.gtb Z.compare andb].
  change (IsSorted [nan; 0.5%float]) with true.
  cbn [Pos.eqb negb orb Pos.of_succ_nat Pos.succ andb bind fill].
  rewrite E1, E2. reflexivity.
Qed.

(** On a gradient whose first offset is NaN, a negative position over
    [max = 0] is blended, not clamped: the claim of C10 as it is stated
    fails there. *)
Lemma ColorAt_zero_max_not_clamped :
  exists c, ColorAt nan_first (-1) 0 = Some c
    /\ c <> mkColor 0.25 0.5 (-0.5) /\ c <> mkColor 0.75 (-0.25) 0.125.
Proof.
  exists (mkColor nan nan nan). split; [reflexivity |].
  split; intros H; apply (f_equal (fun c => is_nan (col_j c))) in H;
    vm_compute in H; discriminate H.
Qed.

(** C10, amended.  [ColorAt] returns a colour, without a panic, on every
    gradient and every pair of integers.  On the sentinel it returns black.
    On a gradient with a stop: at [pos = 0] and [max = 0] it returns the
    colour of the first stop; at [max = 0] and [pos > 0], [f] is [+Inf] and
    it returns the colour of the last stop; at [max = 0] and [pos < 0], [f]
    is [-Inf] and it returns the colour of the first stop when that stop's
    offset is above [-Inf] (neither NaN nor [-Inf]). *)
Theorem ColorAt_total :
  (forall (g : Gradient) (pos max : Z), exists c, ColorAt g pos max = Some c)
  /\ (forall pos max : Z, ColorAt BadGradient pos max = Some black)
  /\ (forall g : Gradient,
        1 <= len g ->
        exists st, index g 0 = Some st /\ ColorAt g 0 0 = Some (stop_Color st))
  /\ (forall (g : Gradient) (pos : Z),
        1 <= len g -> int_range pos -> 0 < pos ->
        sample pos 0 = infinity
        /\ exists st, index g (len g - 1) = Some st
                      /\ ColorAt g pos 0 = Some (stop_Color st))
  /\ (forall (g : Gradient) (pos : Z) (st : stop),
        int_range pos -> pos < 0 ->
        index g 0 = Some st ->
        (neg_infinity <? Offset st)%float = true ->
        sample pos 0 = neg_infinity /\ ColorAt g pos 0 = Some (stop_Color st)).
Proof.
  split; [exact ColorAt_returns |].
  split; [exact ColorAt_sentinel |].
  split; [intros g Hlen; apply ColorAt_first, Hlen |].
  split; [exact ColorAt_above_zero_max | exact ColorAt_below_zero_max].
Qed.

Lemma ColorAt_total_witness :
  ColorAt two_stops 0 0 = Some (mkColor 0.25 0.5 (-0.5))
  /\ ColorAt two_stops 3 0 = Some (mkColor 0.75 (-0.25) 0.125)
  /\ ColorAt two_stops (-3) 0 = Some (mkColor 0.25 0.5 (-0.5)).
Proof.
  destruct ColorAt_total as (_ & _ & H0 & Hup & Hdown).
  assert (Hlen : 1 <= len two_stops) by (vm_compute; discriminate).
  assert (R3 : int_range 3) by (unfold int_range; lia).
  assert (Rm3 : int_range (-3)) by (unfold int_range; lia).
  split; [| split].
  - destruct (H0 two_stops Hlen) as (st & Hst & H).
    injection Hst as <-. exact H.
  - destruct (Hup two_stops 3 Hlen R3 ltac:(lia)) as (_ & st & Hst & H).
    injection Hst as <-. exact H.
  - exact (proj2 (Hdown two_stops (-3) _ Rm3 ltac:(lia) eq_refl eq_refl)).
Defined.

(** ** Multiplying by one and adding a zero *)

(** Shifting a mantissa that ends in 52 zero bits by 52 is exact. *)
Lemma shr_52_exact (m : positive) (e : Z) :
  shr (shr_record_of_loc (Zpos (4503599627370496 * m)) loc_Exact) e 52
  = ({| shr_m := Zpos m; shr_r := false; shr_s := false |}, e + 52).
Proof. reflexivity. Qed.

Lemma digits2_pos_shift_52 (m : positive) :
  Zpos (digits2_pos (4503599627370496 * m)) = Zpos (digits2_pos m) + 52.
Proof. cbn [Pos.mul digits2_pos]. lia. Qed.

Lemma SFmul_one (s : bool) (m : positive) (e : Z) :
  bounded prec emax m e = true ->
  SFmul prec emax (S754_finite s m e) (Prim2SF 1) = S754_finite s m e.
Proof.
  intros Hb. apply andb_prop in Hb as [Hc He].
  unfold canonical_mantissa in Hc. apply Z.eqb_eq in Hc.
  change (Prim2SF 1) with (S754_finite false 4503599627370496 (-52)).
  cbn [SFmul]. rewrite xorb_false_r, Pos.mul_comm.
  unfold binary_round_aux, shr_fexp at 1.
  cbn [Zdigits2]. rewrite digits2_pos_shift_52.
  replace (fexp prec emax (Zpos (digits2_pos m) + 52 + (e + -52)) - (e + -52))
    with 52 by (replace (Zpos (digits2_pos m) + 52 + (e + -52))
                  with (Zpos (digits2_pos m) + e) by lia; lia).
  rewrite shr_52_exact.
  cbn [shr_m loc_of_shr_record round_nearest_even].
  replace (e + -52 + 52) with e by lia.
  unfold shr_fexp. cbn [Zdigits2].
  replace (fexp prec emax (Zpos (digits2_pos m) + e) - e) with 0 by lia.
  cbn [shr shr_record_of_loc shr_m]. rewrite He. reflexivity.
Qed.

Lemma mul_one_r (x : float) : (x * 1)%float = x.
Proof.
  apply Prim2SF_inj. rewrite FloatAxioms.mul_spec.
  pose proof (Prim2SF_valid x) as Hv.
  destruct (Prim2SF x) as [[] | [] | | s m e] eqn:E; try reflexivity.
  apply SFmul_one. exact Hv.
Qed.

Lemma Pos_compare_cont_refl (m : positive) : Pos.compare_cont Eq m m = Eq.
Proof. exact (Pos.compare_refl m). Qed.

(** A float that is neither NaN nor infinite is a zero or [m * 2^e]. *)
Lemma is_finite_spec (x : float) :
  is_finite x = true ->
  (exists s, Prim2SF x = S754_zero s) \/ (exists s m e, Prim2SF x = S754_finite s m e).
Proof.
  unfold is_finite, is_nan, is_infinity.
  rewrite !FloatAxioms.eqb_spec, abs_spec.
  change (Prim2SF infinity) with (S754_infinity false).
  destruct (Prim2SF x) as [s | [] | | s m e]; cbn; try discriminate; eauto.
Qed.

Lemma eqb_refl_finite (x : float) : is_finite x = true -> (x =? x)%float = true.
Proof.
  intros H. unfold is_finite in H. apply negb_true_iff, orb_false_iff in H as [H _].
  unfold is_nan in H. now apply negb_false_iff in H.
Qed.

(** [a * 1 + b * 0 == a] when neither is NaN or infinite. *)
Lemma lerp_sum_at_0 (a b : float) :
  is_finite a = true -> is_finite b = true ->
  (a * 1 + b * 0 =? a)%float = true.
Proof.
  intros Ha Hb. rewrite mul_one_r.
  rewrite FloatAxioms.eqb_spec, FloatAxioms.add_spec, FloatAxioms.mul_spec.
  change (Prim2SF 0) with (S754_zero false).
  destruct (is_finite_spec a Ha) as [[sa ->] | (sa & ma & ea & ->)];
    destruct (is_finite_spec b Hb) as [[sb ->] | (sb & mb & eb & ->)];
    destruct sa, sb; cbn [SF64mul SFmul SF64add SFadd xorb Bool.eqb];
    unfold SFeqb; cbn [SFcompare];
    rewrite ?Z.compare_refl, ?Pos_compare_cont_refl; reflexivity.
Qed.

Lemma lerp_sum_at_1 (a b : float) :
  is_finite a = true -> is_finite b = true ->
  (a * 0 + b * 1 =? b)%float = true.
Proof.
  intros Ha Hb. rewrite mul_one_r.
  rewrite FloatAxioms.eqb_spec, FloatAxioms.add_spec, FloatAxioms.mul_spec.
  change (Prim2SF 0) with (S754_zero false).
  destruct (is_finite_spec a Ha) as [[sa ->] | (sa & ma & ea & ->)];
    destruct (is_finite_spec b Hb) as [[sb ->] | (sb & mb & eb & ->)];
    destruct sa, sb; cbn [SF64mul SFmul SF64add SFadd xorb Bool.eqb];
    unfold SFeqb; cbn [SFcompare];
    rewrite ?Z.compare_refl, ?Pos_compare_cont_refl; reflexivity.
Qed.

Lemma lerp_at_0 (a b : float) :
  is_finite a = true -> is_finite b = true -> (lerp a b 0 =? a)%float = true.
Proof.
  intros Ha Hb. unfold lerp. destruct (a =? b)%float.
  - apply eqb_refl_finite, Ha.
  - change (1.0 - 0)%float with 1%float. apply lerp_sum_at_0; assumption.
Qed.

Lemma lerp_at_1 (a b : float) :
  is_finite a = true -> is_finite b = true -> (lerp a b 1 =? b)%float = true.
Proof.
  intros Ha Hb. unfold lerp. destruct (a =? b)%float eqn:E.
  - exact E.
  - change (1.0 - 1)%float with 0%float. apply lerp_sum_at_1; assumption.
Qed.

(** ** C8: the two ends of a blend *)

(** With a NaN component in the second colour the blend at [0] is not the
    first colour: [0 * 1 + NaN * 0] is NaN. *)
Lemma blend_at_0_nan :
  Color_eqb (blend black (mkColor nan nan nan) 0) black = false.
Proof. reflexivity. Qed.

(** C8, amended.  For colours whose components are finite (neither NaN nor
    an infinity), [blend(c1, c2, 0)] equals [c1] and [blend(c1, c2, 1)]
    equals [c2], component by component under [==]. *)
Theorem blend_endpoints (c1 c2 : Color) :
  Color_is_finite c1 = true -> Color_is_finite c2 = true ->
  Color_eqb (blend c1 c2 0) c1 = true /\ Color_eqb (blend c1 c2 1) c2 = true.
Proof.
  unfold Color_is_finite, Color_eqb. intros H1 H2.
  apply andb_prop in H1 as [H1 H1b]. apply andb_prop in H1 as [H1j H1a].
  apply andb_prop in H2 as [H2 H2b]. apply andb_prop in H2 as [H2j H2a].
  cbn [blend col_j col_a col_b].
  rewrite !lerp_at_0, !lerp_at_1 by assumption. split; reflexivity.
Qed.

Lemma blend_endpoints_witness :
  Color_eqb (blend (mkColor 0.25 0.5 (-0.5)) (mkColor 0.75 (-0.25) 0.125) 0)
            (mkColor 0.25 0.5 (-0.5)) = true
  /\ Color_eqb (blend (mkColor 0.25 0.5 (-0.5)) (mkColor 0.75 (-0.25) 0.125) 1)
               (mkColor 0.75 (-0.25) 0.125) = true.
Proof.
  apply (blend_endpoints (mkColor 0.25 0.5 (-0.5)) (mkColor 0.75 (-0.25) 0.125));
    reflexivity.
Defined.

(** ** The order of the floats *)

Lemma SFcompare_antisym (x y : spec_float) :
  SFcompare y x = option_map CompOpp (SFcompare x y).
Proof.
  destruct x as [[] | [] | | [] mx ex], y as [[] | [] | | [] my ey];
    cbn [SFcompare option_map CompOpp]; try reflexivity;
    rewrite (Z.compare_antisym ex ey);
    destruct (ex ?= ey); cbn [CompOpp]; try reflexivity;
    rewrite (Pos.compare_cont_antisym mx my Eq); reflexivity.
Qed.

Lemma IsNaN_false (x : float) : IsNaN x = false -> Prim2SF x <> S754_nan.
Proof.
  unfold IsNaN, is_nan. rewrite FloatAxioms.eqb_spec. intros H E.
  rewrite E in H. discriminate H.
Qed.

(** Away from NaN, [y < x] is the negation of [x <= y]. *)
Lemma ltb_negb_leb (x y : float) :
  IsNaN x = false -> IsNaN y = false ->
  (y <? x)%float = negb (x <=? y)%float.
Proof.
  intros Hx Hy. apply IsNaN_false in Hx, Hy.
  rewrite FloatAxioms.ltb_spec, FloatAxioms.leb_spec. unfold SFltb, SFleb.
  rewrite (SFcompare_antisym (Prim2SF x) (Prim2SF y)).
  destruct (SFcompare (Prim2SF x) (Prim2SF y)) as [[] |] eqn:E; try reflexivity.
  exfalso. destruct (Prim2SF x) as [| | | [] ? ?], (Prim2SF y) as [| | | [] ? ?];
    cbn in E; congruence.
Qed.

Lemma IsSorted_cons2 (x0 x1 : float) (rest : list float) :
  IsSorted (x0 :: x1 :: rest)
  = negb (Float64Slice_Less x1 x0) && IsSorted (x1 :: rest).
Proof. reflexivity. Qed.

Lemma IsSorted_non_decreasing (x : list float) :
  (forall a, In a x -> IsNaN a = false) ->
  IsSorted x = true <-> non_decreasing x.
Proof.
  induction x as [| x0 [| x1 rest] IH]; intros Hnan.
  - split; [| reflexivity]. intros _ [| i] a b H; discriminate H.
  - split; [| reflexivity]. intros _ [| [| i]] a b H H'; discriminate H'.
  - rewrite IsSorted_cons2.
    assert (H0 : IsNaN x0 = false) by (apply Hnan; now left).
    assert (H1 : IsNaN x1 = false) by (apply Hnan; right; now left).
    assert (Hrest : forall a, In a (x1 :: rest) -> IsNaN a = false)
      by (intros a Ha; apply Hnan; now right).
    specialize (IH Hrest).
    unfold Float64Slice_Less at 1. rewrite H1, (ltb_negb_leb x0 x1 H0 H1).
    cbn [andb orb]. rewrite orb_false_r, negb_involutive. split.
    + intros H. apply andb_prop in H as [Hle Hs].
      intros [| i] a b Ha Hb.
      * cbn in Ha, Hb. injection Ha as <-. injection Hb as <-. exact Hle.
      * apply (proj1 IH Hs i a b); assumption.
    + intros H. apply andb_true_intro. split.
      * apply (H 0%nat x0 x1); reflexivity.
      * apply IH. intros i a b Ha Hb. apply (H (S i) a b); assumption.
Qed.

(** ** Writing into a slice *)

Lemma store_in_range {A : Type} (l : list A) (k : nat) (x : A) :
  (k < List.length l)%nat ->
  store l (Z.of_nat k) x = Some (firstn k l ++ x :: skipn (S k) l).
Proof.
  intros Hk. unfold store, len.
  destruct (Z.ltb_spec (Z.of_nat k) 0); [lia |].
  destruct (Z.leb_spec (Z.of_nat (List.length l)) (Z.of_nat k)); [lia |].
  cbn [orb]. rewrite Nat2Z.id. reflexivity.
Qed.

Lemma length_written {A : Type} (l : list A) (k : nat) (x : A) :
  (k < List.length l)%nat ->
  List.length (firstn k l ++ x :: skipn (S k) l) = List.length l.
Proof.
  intros Hk. rewrite length_app, length_firstn. cbn [List.length].
  rewrite length_skipn. lia.
Qed.

Lemma nth_error_written {A : Type} (l : list A) (k i : nat) (x : A) :
  (k < List.length l)%nat ->
  nth_error (firstn k l ++ x :: skipn (S k) l) i
  = if (i =? k)%nat then Some x else nth_error l i.
Proof.
  intros Hk.
  assert (Hlen : List.length (firstn k l) = k) by (rewrite length_firstn; lia).
  destruct (Nat.eqb_spec i k) as [-> | Hne].
  - rewrite nth_error_app2 by lia. rewrite Hlen, Nat.sub_diag. reflexivity.
  - destruct (Nat.lt_ge_cases i k) as [Hlt | Hge].
    + rewrite nth_error_app1 by lia. rewrite nth_error_firstn.
      destruct (Nat.ltb_spec i k); [reflexivity | lia].
    + rewrite nth_error_app2 by lia. rewrite Hlen.
      destruct (i - k)%nat as [| d] eqn:Ed; [lia |]. cbn [nth_error].
      rewrite nth_error_skipn. f_equal. lia.
Qed.

(** ** The offsets [NewGradient] synthesizes *)

(** The loop writes [1.0/float64(n) * float64(i)] at each index it visits and
    leaves the other elements as they are. *)
Lemma spread_spec (idxs : list nat) (n : Z) (offsets : list float) :
  (forall i, In i idxs -> (i < List.length offsets)%nat) ->
  exists offsets',
    spread idxs n offsets = Some offsets'
    /\ List.length offsets' = List.length offsets
    /\ forall k, nth_error offsets' k
                 = if existsb (Nat.eqb k) idxs
                   then Some (1.0 / float64_of_int n
                              * float64_of_int (Z.of_nat k))%float
                   else nth_error offsets k.
Proof.
  revert offsets. induction idxs as [| i idxs IH]; intros offsets Hin.
  - exists offsets. repeat split.
  - assert (Hi : (i < List.length offsets)%nat) by (apply Hin; now left).
    cbn [spread]. rewrite (store_in_range _ _ _ Hi). cbn [bind].
    destruct (IH (firstn i offsets
                    ++ (1.0 / float64_of_int n * float64_of_int (Z.of_nat i))%float
                    :: skipn (S i) offsets))
      as (offsets' & Hrun & Hlen & Hnth).
    { intros k Hk. rewrite length_written by exact Hi. apply Hin. now right. }
    exists offsets'. split; [exact Hrun |]. split.
    + rewrite Hlen. apply length_written, Hi.
    + intros k. rewrite Hnth. cbn [existsb].
      destruct (existsb (Nat.eqb k) idxs); [now rewrite orb_true_r |].
      rewrite orb_false_r, nth_error_written by exact Hi.
      destruct (Nat.eqb_spec k i) as [-> | _]; reflexivity.
Qed.

Lemma existsb_seq (k a n : nat) :
  existsb (Nat.eqb k) (seq a n) = ((a <=? k)%nat && (k <? a + n)%nat).
Proof.
  revert a. induction n as [| n IH]; intros a; cbn [seq existsb].
  - destruct (Nat.leb_spec a k), (Nat.ltb_spec k (a + 0)); (reflexivity || lia).
  - rewrite IH.
    destruct (Nat.eqb_spec k a), (Nat.leb_spec a k), (Nat.leb_spec (S a) k),
      (Nat.ltb_spec k (S a + n)), (Nat.ltb_spec k (a + S n));
      (reflexivity || lia).
Qed.

Lemma nth_error_repeat {A : Type} (x : A) (n k : nat) :
  (k < n)%nat -> nth_error (repeat x n) k = Some x.
Proof.
  revert k. induction n as [| n IH]; intros k Hk; [lia |].
  destruct k as [| k]; cbn; [reflexivity | apply IH; lia].
Qed.

Lemma evenOffsets_spec (n : nat) :
  (1 <= n)%nat ->
  exists offsets,
    evenOffsets n = Some offsets
    /\ List.length offsets = n
    /\ forall k, (k < n)%nat ->
         nth_error offsets k
         = if ((1 <=? k)%nat && (k <? n - 1)%nat)
           then Some (1.0 / float64_of_int (Z.of_nat n)
                      * float64_of_int (Z.of_nat k))%float
           else if (k =? n - 1)%nat then Some 1%float else Some 0%float.
Proof.
  intros Hn. unfold evenOffsets.
  assert (Hlast : (n - 1 < List.length (repeat 0%float n))%nat)
    by (rewrite repeat_length; lia).
  replace (Z.of_nat n - 1) with (Z.of_nat (n - 1)) by lia.
  rewrite (store_in_range _ _ _ Hlast). cbn [bind].
  destruct (spread_spec (seq 1 (n - 2)) (Z.of_nat n)
              (firstn (n - 1) (repeat 0%float n) ++ 1%float
               :: skipn (S (n - 1)) (repeat 0%float n)))
    as (offsets & Hrun & Hlen & Hnth).
  { intros i Hi. apply in_seq in Hi. rewrite length_written by exact Hlast.
    rewrite repeat_length. lia. }
  exists offsets. split; [exact Hrun |].
  rewrite length_written, repeat_length in Hlen by exact Hlast.
  split; [exact Hlen |]. intros k Hk.
  rewrite Hnth, existsb_seq, nth_error_written by exact Hlast.
  assert (E : ((1 <=? k)%nat && (k <? 1 + (n - 2))%nat)
              = ((1 <=? k)%nat && (k <? n - 1)%nat)).
  { destruct (Nat.leb_spec 1 k), (Nat.ltb_spec k (1 + (n - 2))),
      (Nat.ltb_spec k (n - 1)); (reflexivity || lia). }
  rewrite E.
  destruct ((1 <=? k)%nat && (k <? n - 1)%nat); [reflexivity |].
  destruct (k =? n - 1)%nat; [reflexivity |].
  apply nth_error_repeat, Hk.
Qed.

(** ** C1: [FromHex] on strings that are not colours *)

Lemma byte_at_in_range (s : string) (i : Z) :
  0 <= i < slen s -> exists b, byte_at s i = Some b.
Proof.
  intros [H0 H1]. unfold byte_at, slen in *.
  destruct (Z.ltb_spec i 0); [lia |].
  assert (Hn : (Z.to_nat i < String.length s)%nat) by lia.
  clear H0 H1 H. revert Hn. generalize (Z.to_nat i) as n.
  induction s as [| c s IH]; intros n Hn; cbn in Hn; [lia |].
  destruct n as [| n]; cbn [String.get]; [eauto |].
  apply IH. lia.
Qed.

(** On the empty string [hexStr[0]] is out of range. *)
Lemma FromHex_empty (Pow : float -> float -> float) : FromHex Pow "" = None.
Proof. reflexivity. Qed.

(** On every other string [FromHex] returns a colour. *)
Lemma FromHex_returns (Pow : float -> float -> float) (s : string) :
  s <> ""%string -> exists c, FromHex Pow s = Some c.
Proof.
  intros Hs. unfold FromHex.
  destruct (byte_at_in_range s 0) as [c0 ->].
  { destruct s; [contradiction | unfold slen; cbn; lia]. }
  cbn [bind].
  set (h := if c0 =? 35 then substring 1 (String.length s - 1) s else s).
  destruct (Z.eqb_spec (slen h) 6) as [E | E]; cbn [negb]; [| eauto].
  destruct (byte_at_in_range h 0) as [h0 ->]; [lia |].
  destruct (byte_at_in_range h 1) as [h1 ->]; [lia |].
  destruct (byte_at_in_range h 2) as [h2 ->]; [lia |].
  destruct (byte_at_in_range h 3) as [h3 ->]; [lia |].
  destruct (byte_at_in_range h 4) as [h4 ->]; [lia |].
  destruct (byte_at_in_range h 5) as [h5 ->]; [lia |].
  cbn [bind]. eauto.
Qed.

(** A string that is not six bytes long, the [#] apart, yields black. *)
Lemma FromHex_wrong_length (Pow : float -> float -> float) (s : string) :
  slen s <> 6 ->
  FromHex Pow (String "#" s) = Some black
  /\ (s <> ""%string -> byte_at s 0 <> Some 35 -> FromHex Pow s = Some black).
Proof.
  intros Hlen. split.
  - unfold FromHex. cbn [byte_at Z.ltb Z.compare Z.to_nat String.get bind].
    change (Z.of_N (N_of_ascii "#") =? 35) with true. cbn iota.
    cbn [String.length Nat.sub substring].
    rewrite Nat.sub_0_r.
    assert (E : substring 0 (String.length s) s = s).
    { clear. induction s as [| c s IH]; cbn; [reflexivity | now rewrite IH]. }
    rewrite E. destruct (Z.eqb_spec (slen s) 6); [contradiction | reflexivity].
  - intros Hs H0. unfold FromHex.
    destruct (byte_at_in_range s 0) as [c0 E0].
    { destruct s; [contradiction | unfold slen; cbn; lia]. }
    rewrite E0. cbn [bind].
    destruct (Z.eqb_spec c0 35) as [-> | _]; [contradiction |].
    destruct (Z.eqb_spec (slen s) 6); [contradiction | reflexivity].
Qed.

(** [hexByte] reads a byte that is not a hexadecimal digit as the digit [0]. *)
Lemma hexByte_not_a_digit (b : Z) :
  b < 48 \/ 57 < b < 65 \/ 70 < b < 97 \/ 102 < b -> hexByte b = 0.
Proof.
  intros H. unfold hexByte.
  destruct (Z.leb_spec 48 b), (Z.leb_spec b 57), (Z.leb_spec 97 b),
    (Z.leb_spec b 102), (Z.leb_spec 65 b), (Z.leb_spec b 70);
    cbn [andb]; (reflexivity || lia).
Qed.

(** C1.  [FromHex] does not return black on every malformed string.  On the
    empty string it panics: [hexStr[0]] is read before the length is looked
    at.  A byte that is not a hexadecimal digit is read as the digit [0], so
    ["#fg0000"] is converted as ["#f00000"] is, a red. *)
Theorem FromHex_malformed (Pow : float -> float -> float) :
  FromHex Pow "" = None
  /\ FromHex Pow "#fg0000" = FromHex Pow "#f00000".
Proof. split; reflexivity. Qed.

(** That red is not black. *)
Lemma FromHex_fg0000 :
  exists c, FromHex pow_table "#fg0000" = Some c
            /\ Color_eqb c black = false /\ (0.01 <? col_a c)%float = true.
Proof. eexists. split; [reflexivity |]. split; reflexivity. Qed.

(** ** The stops [NewGradient] fills in *)

Lemma skipn_nth_error {A : Type} (l : list A) (i : nat) (x : A) :
  nth_error l i = Some x -> skipn i l = x :: skipn (S i) l.
Proof.
  revert i. induction l as [| y l IH]; intros [| i] H; try discriminate H.
  - injection H as ->. reflexivity.
  - cbn [skipn]. apply IH. exact H.
Qed.

Lemma fill_spec (Pow : float -> float -> float) (rest : list string)
      (offsets : list float) (i : nat) (g : list stop) :
  fill Pow rest offsets (Z.of_nat i) = Some g ->
  List.length g = List.length rest
  /\ map Offset g = firstn (List.length rest) (skipn i offsets)
  /\ map (fun st => Some (stop_Color st)) g = map (FromHex Pow) rest.
Proof.
  revert i g. induction rest as [| h rest IH]; intros i g; cbn [fill].
  - intros H. injection H as <-. repeat split.
  - destruct (FromHex Pow h) as [c |] eqn:Ec; [| discriminate]. cbn [bind].
    rewrite index_nth.
    destruct (nth_error offsets i) as [o |] eqn:Eo; [| discriminate]. cbn [bind].
    replace (Z.of_nat i + 1) with (Z.of_nat (S i)) by lia.
    destruct (fill Pow rest offsets (Z.of_nat (S i))) as [g' |] eqn:Eg;
      [| discriminate].
    cbn [bind]. intros H. injection H as <-.
    destruct (IH (S i) g' Eg) as (Hlen & Hoff & Hcol).
    cbn [List.length map Offset stop_Color firstn].
    rewrite (skipn_nth_error _ _ _ Eo), Hlen, Hoff, Hcol, Ec. repeat split.
Qed.

Lemma fill_returns (Pow : float -> float -> float) (rest : list string)
      (offsets : list float) (i : nat) :
  (forall s, In s rest -> s <> ""%string) ->
  (i + List.length rest <= List.length offsets)%nat ->
  exists g, fill Pow rest offsets (Z.of_nat i) = Some g.
Proof.
  revert i. induction rest as [| h rest IH]; intros i Hs Hlen; cbn [fill].
  - eauto.
  - cbn [List.length] in Hlen.
    destruct (FromHex_returns Pow h) as [c ->]; [apply Hs; now left |].
    cbn [bind]. rewrite index_nth.
    destruct (nth_error offsets i) as [o |] eqn:Eo;
      [| apply nth_error_None in Eo; lia].
    cbn [bind]. replace (Z.of_nat i + 1) with (Z.of_nat (S i)) by lia.
    destruct (IH (S i)) as [g ->]; [intros s Hin; apply Hs; now right | lia |].
    cbn [bind]. eauto.
Qed.

(** ** [NewGradient] *)

Lemma len_eq_0 {A : Type} (l : list A) : len l = 0 <-> l = [].
Proof.
  unfold len. destruct l; cbn [List.length]; split; intros H;
    (reflexivity || discriminate || lia).
Qed.

Lemma NewGradient_rejected (Pow : float -> float -> float)
      (stops : list string) (offsets : list float) :
  rejected stops offsets -> NewGradient Pow stops offsets = Some BadGradient.
Proof.
  unfold NewGradient, rejected.
  intros [-> | (Hne & Hbad)]; [reflexivity |].
  destruct (len stops =? 0); [reflexivity |].
  assert (Hpos : (len offsets >? 0) = true).
  { destruct offsets; [contradiction |].
    rewrite len_cons. pose proof (len_nonneg offsets).
    destruct (Z.gtb_spec (len offsets + 1) 0); [reflexivity | lia]. }
  rewrite Hpos. cbn [andb].
  destruct Hbad as [Hlen | Hsort].
  - destruct (Z.eqb_spec (len offsets) (len stops)) as [E | _];
      [unfold len in E; lia | reflexivity].
  - rewrite Hsort. cbn [negb]. rewrite orb_true_r. reflexivity.
Qed.

(** Past its checks [NewGradient] fills the stops in, from offsets that are
    as many as the stops. *)
Lemma NewGradient_accepted (Pow : float -> float -> float)
      (stops : list string) (offsets : list float) :
  ~ rejected stops offsets ->
  exists offsets',
    List.length offsets' = List.length stops
    /\ (offsets <> [] -> offsets' = offsets)
    /\ (offsets = [] -> evenOffsets (List.length stops) = Some offsets')
    /\ NewGradient Pow stops offsets = fill Pow stops offsets' 0.
Proof.
  unfold rejected, NewGradient. intros Hok.
  destruct (Z.eqb_spec (len stops) 0) as [E | E].
  { exfalso. apply Hok. left. now apply len_eq_0. }
  destruct offsets as [| o offsets].
  - cbn [len List.length Z.of_nat Z.gtb Z.compare andb].
    destruct (evenOffsets_spec (List.length stops)) as (offs & Heven & Hlen & _).
    { unfold len in E. lia. }
    exists offs. rewrite Heven. cbn [bind]. repeat split; try assumption.
    intros H. contradiction.
  - assert (Hpos : (len (o :: offsets) >? 0) = true).
    { rewrite len_cons. pose proof (len_nonneg offsets).
      destruct (Z.gtb_spec (len offsets + 1) 0); [reflexivity | lia]. }
    rewrite Hpos. cbn [andb].
    destruct (Z.eqb_spec (len (o :: offsets)) (len stops)) as [El | El].
    + destruct (IsSorted (o :: offsets)) eqn:Es.
      * cbn [negb orb bind]. exists (o :: offsets).
        repeat split; try (intros; discriminate). unfold len in El. lia.
      * exfalso. apply Hok. right. split; [discriminate | now right].
    + exfalso. apply Hok. right. split; [discriminate | left].
      intros H. apply El. unfold len. now rewrite H.
Qed.

Lemma rejected_dec (stops : list string) (offsets : list float) :
  rejected stops offsets \/ ~ rejected stops offsets.
Proof.
  unfold rejected. destruct stops as [| s stops]; [left; now left |].
  destruct offsets as [| o offsets].
  - right. intros [H | (H & _)]; [discriminate | contradiction].
  - destruct (Nat.eq_dec (List.length (o :: offsets)) (List.length (s :: stops)))
      as [El | El].
    + destruct (IsSorted (o :: offsets)) eqn:Es.
      * right. intros [H | (_ & [H | H])];
          [discriminate | contradiction | discriminate].
      * left. right. split; [discriminate | now right].
    + left. right. split; [discriminate | now left].
Qed.

Lemma NewGradient_sentinel_iff (Pow : float -> float -> float)
      (stops : list string) (offsets : list float) :
  NewGradient Pow stops offsets = Some BadGradient <-> rejected stops offsets.
Proof.
  split; [| apply NewGradient_rejected].
  intros H. destruct (rejected_dec stops offsets) as [Hr | Hok]; [exact Hr |].
  exfalso.
  destruct (NewGradient_accepted Pow stops offsets Hok) as (offs & _ & _ & _ & E).
  rewrite E in H. apply (fill_spec Pow stops offs 0) in H as (Hlen & _).
  apply Hok. left. destruct stops; [reflexivity | discriminate Hlen].
Qed.

Lemma NewGradient_populated (Pow : float -> float -> float)
      (stops : list string) (offsets : list float) :
  ~ rejected stops offsets ->
  (forall s, In s stops -> s <> ""%string) ->
  exists g,
    NewGradient Pow stops offsets = Some g
    /\ List.length g = List.length stops
    /\ map (fun st => Some (stop_Color st)) g = map (FromHex Pow) stops
    /\ (offsets <> [] -> map Offset g = offsets).
Proof.
  intros Hok Hs.
  destruct (NewGradient_accepted Pow stops offsets Hok)
    as (offs & Hlen & Hgiven & _ & E).
  destruct (fill_returns Pow stops offs 0 Hs) as [g Hg]; [lia |].
  exists g. rewrite E. split; [exact Hg |].
  destruct (fill_spec Pow stops offs 0 g Hg) as (Hl & Hoff & Hcol).
  split; [exact Hl |]. split; [exact Hcol |].
  intros Hne. rewrite Hoff, <- Hlen. cbn [skipn].
  rewrite firstn_all. apply Hgiven, Hne.
Qed.

(** ** C5: when [NewGradient] returns the sentinel *)

(** Offsets that start with a NaN are not non-decreasing, NaN being below or
    equal to nothing, and [NewGradient] takes them: the claim of C5 as it is
    stated fails there. *)
Lemma NewGradient_takes_nan_first :
  ~ non_decreasing [nan; 0.5%float]
  /\ forall Pow : float -> float -> float,
       NewGradient Pow ["#ff0000"; "#0000ff"]%string [nan; 0.5%float]
       <> Some BadGradient.
Proof.
  split.
  - intros H. specialize (H 0%nat nan 0.5%float eq_refl eq_refl).
    vm_compute in H. discriminate H.
  - intros Pow. destruct (NewGradient_nan_first Pow) as (c1 & c2 & ->).
    discriminate.
Qed.

(** C5, amended.  [NewGradient] returns the sentinel exactly when there is no
    stop, or when the offsets are not empty and are not as many as the stops
    or are not sorted in the order of [sort.Float64Slice], which puts the
    NaNs first; on offsets without a NaN that order is the non-decreasing
    one.  In every other case, when no stop is the empty string, it returns
    a gradient with one stop for each stop string: the colour [FromHex]
    gives it, and its offset when offsets are given. *)
Theorem NewGradient_sentinel :
  (forall (Pow : float -> float -> float) (stops : list string)
          (offsets : list float),
     NewGradient Pow stops offsets = Some BadGradient
     <-> stops = []
         \/ (offsets <> []
             /\ (List.length offsets <> List.length stops
                 \/ IsSorted offsets = false)))
  /\ (forall offsets : list float,
        (forall a, In a offsets -> IsNaN a = false) ->
        IsSorted offsets = true <-> non_decreasing offsets)
  /\ (forall (Pow : float -> float -> float) (stops : list string)
             (offsets : list float),
        ~ rejected stops offsets ->
        (forall s, In s stops -> s <> ""%string) ->
        exists g,
          NewGradient Pow stops offsets = Some g
          /\ List.length g = List.length stops
          /\ map (fun st => Some (stop_Color st)) g = map (FromHex Pow) stops
          /\ (offsets <> [] -> map Offset g = offsets)).
Proof.
  split; [exact NewGradient_sentinel_iff |].
  split; [exact IsSorted_non_decreasing | exact NewGradient_populated].
Qed.

Lemma NewGradient_sentinel_witness :
  (IsSorted [0.2; 0.8]%float = true <-> non_decreasing [0.2; 0.8]%float)
  /\ exists g,
       NewGradient pow_table ["#fff"; "#000000"]%string [0.2; 0.8]%float = Some g
       /\ List.length g = 2%nat
       /\ map Offset g = [0.2; 0.8]%float.
Proof.
  destruct NewGradient_sentinel as (_ & Hsorted & Hpop). split.
  - apply Hsorted. intros a [<- | [<- | []]]; reflexivity.
  - destruct (Hpop pow_table ["#fff"; "#000000"]%string [0.2; 0.8]%float)
      as (g & Hg & Hlen & _ & Hoff).
    + intros [H | (_ & [H | H])];
        [discriminate H | apply H; reflexivity | vm_compute in H; discriminate H].
    + intros s [<- | [<- | []]]; discriminate.
    + exists g. split; [exact Hg |]. split; [exact Hlen |].
      apply Hoff. discriminate.
Defined.

(** ** C6: the offsets of stops given without offsets *)

(** A single stop is given the offset [1], not [0]; and the product
    [1.0/float64(n) * float64(i)] is not always the quotient [i/n]: for the
    fourth of five stops it is [0.6000000000000001]. *)
Lemma evenOffsets_not_as_stated :
  evenOffsets 1 = Some [1%float]
  /\ (1 =? 0)%float = false
  /\ (exists offsets x,
        evenOffsets 5 = Some offsets /\ nth_error offsets 3 = Some x
        /\ (x =? float64_of_int 3 / float64_of_int 5)%float = false).
Proof.
  split; [reflexivity |]. split; [reflexivity |].
  eexists _, _. split; [reflexivity |]. split; reflexivity.
Qed.

(** C6, amended.  For [n >= 2] stops given without offsets, the offsets
    [NewGradient] synthesizes are [0] for the first stop, [1] for the last
    one and, for every stop [0 < i < n-1] between them, the product
    [1.0/float64(n) * float64(i)] in double precision, which is [i/n] up to
    rounding; they are the offsets of the gradient it returns. *)
Theorem evenOffsets_values :
  (forall n : nat,
     (2 <= n)%nat ->
     exists offsets,
       evenOffsets n = Some offsets
       /\ List.length offsets = n
       /\ nth_error offsets 0 = Some 0%float
       /\ nth_error offsets (n - 1) = Some 1%float
       /\ forall i, (0 < i < n - 1)%nat ->
            nth_error offsets i
            = Some (1.0 / float64_of_int (Z.of_nat n)
                    * float64_of_int (Z.of_nat i))%float)
  /\ (forall (Pow : float -> float -> float) (stops : list string)
             (g : Gradient),
        stops <> [] ->
        NewGradient Pow stops [] = Some g ->
        evenOffsets (List.length stops) = Some (map Offset g)).
Proof.
  split.
  - intros n Hn.
    destruct (evenOffsets_spec n) as (offsets & Heven & Hlen & Hnth); [lia |].
    exists offsets. split; [exact Heven |]. split; [exact Hlen |].
    split; [| split].
    + rewrite Hnth by lia. cbn [Nat.leb andb].
      destruct (Nat.eqb_spec 0 (n - 1)); [lia | reflexivity].
    + rewrite Hnth by lia. rewrite Nat.ltb_irrefl, andb_false_r, Nat.eqb_refl.
      reflexivity.
    + intros i Hi. rewrite Hnth by lia.
      destruct (Nat.leb_spec 1 i); [| lia].
      destruct (Nat.ltb_spec i (n - 1)); [reflexivity | lia].
  - intros Pow stops g Hne Hg.
    assert (Hok : ~ rejected stops []).
    { intros [H | (H & _)]; contradiction. }
    destruct (NewGradient_accepted Pow stops [] Hok) as (offs & Hlen & _ & Heven & E).
    rewrite E in Hg. destruct (fill_spec Pow stops offs 0 g Hg) as (_ & Hoff & _).
    rewrite Heven by reflexivity. f_equal.
    rewrite Hoff, <- Hlen. cbn [skipn]. symmetry. apply firstn_all.
Qed.

Lemma evenOffsets_values_witness :
  (exists offsets,
     evenOffsets 4 = Some offsets
     /\ nth_error offsets 0 = Some 0%float
     /\ nth_error offsets 3 = Some 1%float
     /\ nth_error offsets 2 = Some 0.5%float)
  /\ (exists g, NewGradient pow_table ["#ff0000"; "#0000ff"]%string [] = Some g
                /\ Some (map Offset g) = Some [0; 1]%float).
Proof.
  destruct evenOffsets_values as [Hval Hnew]. split.
  - destruct (Hval 4%nat ltac:(lia)) as (offsets & He & _ & H0 & Hl & Hi).
    exists offsets. split; [exact He |]. split; [exact H0 |].
    split; [exact Hl |]. exact (Hi 2%nat ltac:(lia)).
  - destruct (NewGradient pow_table ["#ff0000"; "#0000ff"]%string [])
      as [g |] eqn:Eg; [| discriminate Eg].
    exists g. split; [reflexivity |].
    rewrite <- (Hnew pow_table ["#ff0000"; "#0000ff"]%string g); [reflexivity | discriminate | exact Eg].
Defined.

(** ** C7: the conversion of black *)

Lemma all_from_spec (f : Z -> bool) (lo : Z) (n : nat) :
  all_from f lo n = true ->
  forall m, lo <= m < lo + Z.of_nat n -> f m = true.
Proof.
  revert lo. induction n as [| n IH]; intros lo H m Hm; [lia |].
  cbn [all_from] in H. apply andb_prop in H as [H0 H].
  destruct (Z.eq_dec m lo) as [-> | Hne]; [exact H0 |].
  apply (IH (lo + 1) H). lia.
Qed.

(** On ["#000000"] the three channels are [0], so are [x], [y] and [z], and
    [lP], [mP] and [sP] are all [pq(0) = Pow(0.8359375, 134.034375)]. *)
Lemma FromHex_black (Pow : float -> float -> float) :
  Pow 0%float 0.1593017578125%float = 0%float ->
  FromHex Pow "#000000" = Some (from_grey (Pow 0.8359375%float 134.034375%float)).
Proof.
  intros Hz. vm_compute. rewrite !Hz. vm_compute. reflexivity.
Qed.

Lemma from_grey_window :
  all_from (fun m => almost_black (from_grey (binade_pq0 m)))
           (pq0_mantissa - 100000) (Z.to_nat 200001) = true.
Proof. vm_compute. reflexivity. Qed.

(** With the double nearest to [0.8359375^134.034375] for [pq(0)], the
    conversion of ["#000000"] has a negative [j]: it is not
    [Color(0,0,0)]. *)
Lemma FromHex_black_not_zero :
  exists c, FromHex pow_table "#000000" = Some c
            /\ Color_eqb c black = false /\ (col_j c <? 0)%float = true.
Proof. eexists. split; [reflexivity |]. split; reflexivity. Qed.

(** C7, amended.  With a [math.Pow] that is within 100000 units in the last
    place on [0.8359375^134.034375], the conversion of ["#000000"] returns a
    colour whose components are all within [1e-21] of zero and are not all
    zero: it is near [Color(0,0,0)] and not equal to it. *)
Theorem FromHex_black_almost_zero (Pow : float -> float -> float) :
  accurate_on_black Pow ->
  exists c, FromHex Pow "#000000" = Some c /\ almost_black c = true.
Proof.
  intros (Hz & m & Hm & Hp).
  exists (from_grey (Pow 0.8359375%float 134.034375%float)).
  split; [apply FromHex_black, Hz |].
  rewrite Hp.
  apply (all_from_spec _ _ _ from_grey_window m).
  rewrite Z2Nat.id by lia. lia.
Qed.

Lemma FromHex_black_almost_zero_witness :
  exists c, FromHex pow_table "#000000" = Some c /\ almost_black c = true.
Proof.
  apply (FromHex_black_almost_zero pow_table). split; [reflexivity |].
  exists pq0_mantissa. split; [unfold pq0_mantissa; lia | reflexivity].
Defined.

(** ** C2: [RGBA] *)

Lemma scaled_bytes : all_from byte_scaled 0 (Z.to_nat 256) = true.
Proof. vm_compute. reflexivity. Qed.

(** [uint32(k * 65535.0)] for a byte [k] is [65535 * k]. *)
Lemma uint32_of_scaled_byte (u : float -> Z) (k : Z) :
  0 <= k <= 255 ->
  uint32_of_float u (float64_of_int k * 65535.0)%float = k * 65535.
Proof.
  intros Hk. pose proof (all_from_spec _ _ _ scaled_bytes k) as H.
  rewrite Z2Nat.id in H by lia. specialize (H ltac:(lia)).
  unfold byte_scaled in H. unfold uint32_of_float.
  destruct (trunc (float64_of_int k * 65535.0)%float) as [z |];
    [| discriminate H].
  apply Z.eqb_eq in H. subst z.
  destruct (Z.leb_spec 0 (k * 65535)); [| lia].
  destruct (Z.ltb_spec (k * 65535) (2 ^ 32)); [reflexivity | lia].
Qed.

(** C2.  [RGBA] does not scale the linear channels to [0..65535]: it takes
    the three values of [sRGB()], the gamma-corrected channels already
    scaled to [0..255] and rounded, and multiplies each by [65535].  For a
    colour whose bytes are [kr], [kg] and [kb] it returns [65535 * kr],
    [65535 * kg] and [65535 * kb], above [65535] from the byte [2] on, with
    the alpha [0xFFFF]. *)
Theorem RGBA_scales_bytes (Pow : float -> float -> float) (u : float -> Z)
        (c : Color) (kr kg kb : Z) :
  0 <= kr <= 255 -> 0 <= kg <= 255 -> 0 <= kb <= 255 ->
  sRGB Pow c = (float64_of_int kr, float64_of_int kg, float64_of_int kb) ->
  RGBA Pow u c = (kr * 65535, kg * 65535, kb * 65535, 0xFFFF).
Proof.
  intros Hr Hg Hb H. unfold RGBA. rewrite H.
  rewrite !uint32_of_scaled_byte by assumption. reflexivity.
Qed.

(** On white, [FromHex("#ffffff")], each channel is [255 * 65535]. *)
Lemma RGBA_scales_bytes_witness :
  exists c, FromHex pow_table "#ffffff" = Some c
            /\ forall u, RGBA pow_table u c
                         = (16711425, 16711425, 16711425, 65535).
Proof.
  eexists. split; [reflexivity |]. intros u.
  apply (RGBA_scales_bytes pow_table u _ 255 255 255); try lia. reflexivity.
Defined.

(** The alpha is [0xFFFF] on every colour. *)
Lemma RGBA_alpha (Pow : float -> float -> float) (u : float -> Z) (c : Color) :
  snd (RGBA Pow u c) = 0xFFFF.
Proof. unfold RGBA. destruct (sRGB Pow c) as [[sR sG] sB]. reflexivity. Qed.

(** The earlier revision does scale the linear channels, rounding by
    [+ 0.5]; its [xyz()] adds the first term of [z] where the later one
    subtracts it, and on that same white two of its channels are above
    [65535] too. *)
Lemma Earlier_RGBA_white :
  exists c, FromHex pow_table "#ffffff" = Some c
            /\ forall u, Earlier.RGBA pow_table u c = (59767, 66015, 77769, 65535).
Proof. eexists. split; [reflexivity |]. intros u. reflexivity. Qed.

(** * Further properties of the package *)

(** ** Hexadecimal digits *)

Lemma hexByte_range (b : Z) : 0 <= hexByte b <= 15.
Proof.
  unfold hexByte, u8.
  destruct (Z.leb_spec 48 b), (Z.leb_spec b 57), (Z.leb_spec 97 b),
    (Z.leb_spec b 102), (Z.leb_spec 65 b), (Z.leb_spec b 70);
    cbn [andb]; try lia.
  - rewrite Z.mod_small by lia. lia.
  - rewrite (Z.mod_small (b - 97)) by lia. rewrite Z.mod_small by lia. lia.
  - rewrite (Z.mod_small (b - 65)) by lia. rewrite Z.mod_small by lia. lia.
Qed.

(** X1.  [hexByte] returns the value of a hexadecimal digit, of either case,
    and [0] on every other byte; it is at most [15], so that the [byte]
    arithmetic of [hexByte(hi)<<4 + hexByte(lo)] never wraps around: the sum
    is [16 * hexByte(hi) + hexByte(lo)], at most [255]. *)
Theorem hexByte_hexPair_value (hi lo : Z) :
  (48 <= hi <= 57 -> hexByte hi = hi - 48)
  /\ (97 <= hi <= 102 -> hexByte hi = hi - 87)
  /\ (65 <= hi <= 70 -> hexByte hi = hi - 55)
  /\ (hi < 48 \/ 57 < hi < 65 \/ 70 < hi < 97 \/ 102 < hi -> hexByte hi = 0)
  /\ hexPair hi lo = 16 * hexByte hi + hexByte lo
  /\ 0 <= hexPair hi lo <= 255.
Proof.
  assert (Hpair : hexPair hi lo = 16 * hexByte hi + hexByte lo).
  { unfold hexPair, u8. pose proof (hexByte_range hi). pose proof (hexByte_range lo).
    rewrite Z.shiftl_mul_pow2 by lia. change (2 ^ 4) with 16.
    rewrite (Z.mod_small (hexByte hi * 16)) by lia.
    rewrite Z.mod_small by lia. lia. }
  repeat split; try (rewrite Hpair; pose proof (hexByte_range hi);
                     pose proof (hexByte_range lo); lia);
    try exact Hpair; intros H; unfold hexByte, u8;
    destruct (Z.leb_spec 48 hi), (Z.leb_spec hi 57), (Z.leb_spec 97 hi),
      (Z.leb_spec hi 102), (Z.leb_spec 65 hi), (Z.leb_spec hi 70);
    cbn [andb]; try lia.
  - rewrite Z.mod_small by lia. lia.
  - rewrite (Z.mod_small (hi - 97)) by lia. rewrite Z.mod_small by lia. lia.
  - rewrite (Z.mod_small (hi - 65)) by lia. rewrite Z.mod_small by lia. lia.
Qed.

Lemma hexByte_hexPair_value_witness :
  hexByte 102 = 15 /\ hexByte 70 = 15 /\ hexByte 57 = 9 /\ hexByte 103 = 0.
Proof.
  destruct (hexByte_hexPair_value 102 0) as (_ & Hl & _).
  destruct (hexByte_hexPair_value 70 0) as (_ & _ & Hu & _).
  destruct (hexByte_hexPair_value 57 0) as (Hd & _).
  destruct (hexByte_hexPair_value 103 0) as (_ & _ & _ & Hn & _).
  split; [exact (Hl ltac:(lia)) |]. split; [exact (Hu ltac:(lia)) |].
  split; [exact (Hd ltac:(lia)) | exact (Hn ltac:(lia))].
Defined.

(** ** [FromHex], case by case *)

Lemma substring_all (s : string) : substring 0 (String.length s) s = s.
Proof. induction s as [| c s IH]; cbn; [reflexivity | now rewrite IH]. Qed.

Lemma byte_at_cons (a : ascii) (s : string) :
  byte_at (String a s) 0 = Some (code a).
Proof. reflexivity. Qed.

(** With the [#], a string of six bytes is converted from its three pairs of
    digits. *)
Lemma FromHex_hash_six (Pow : float -> float -> float) (a0 a1 a2 a3 a4 a5 : ascii) :
  FromHex Pow (String "#" (six a0 a1 a2 a3 a4 a5))
  = Some (rgb8_to_Color Pow (hexPair (code a0) (code a1))
            (hexPair (code a2) (code a3)) (hexPair (code a4) (code a5))).
Proof. reflexivity. Qed.

(** Without it too, when the first byte is not a [#]. *)
Lemma FromHex_six (Pow : float -> float -> float) (a0 a1 a2 a3 a4 a5 : ascii) :
  code a0 <> 35 ->
  FromHex Pow (six a0 a1 a2 a3 a4 a5)
  = Some (rgb8_to_Color Pow (hexPair (code a0) (code a1))
            (hexPair (code a2) (code a3)) (hexPair (code a4) (code a5))).
Proof.
  intros H. unfold FromHex, six. rewrite byte_at_cons. cbn [bind].
  destruct (Z.eqb_spec (code a0) 35); [contradiction |]. reflexivity.
Qed.

(** X2.  [FromHex] panics on the empty string and on no other string. *)
Theorem FromHex_panics_iff (Pow : float -> float -> float) (s : string) :
  FromHex Pow s = None <-> s = ""%string.
Proof.
  split.
  - intros H. destruct s as [| a s]; [reflexivity |].
    destruct (FromHex_returns Pow (String a s)) as [c Hc]; [discriminate |].
    rewrite Hc in H. discriminate H.
  - intros ->. apply FromHex_empty.
Qed.

(** X3.  A string that is not six bytes long once its leading [#] is taken
    off, and that is not empty, is converted to black, [Color{0, 0, 0}]. *)
Theorem FromHex_other_lengths (Pow : float -> float -> float) (s : string) :
  slen s <> 6 ->
  FromHex Pow (String "#" s) = Some black
  /\ (s <> ""%string -> byte_at s 0 <> Some 35 -> FromHex Pow s = Some black).
Proof. apply FromHex_wrong_length. Qed.

Lemma FromHex_other_lengths_witness :
  FromHex pow_table "#fff" = Some black /\ FromHex pow_table "1234567" = Some black.
Proof.
  split.
  - exact (proj1 (FromHex_other_lengths pow_table "fff" ltac:(discriminate))).
  - apply (proj2 (FromHex_other_lengths pow_table "1234567" ltac:(discriminate)));
      discriminate.
Defined.

(** X4.  The leading [#] is optional: a string that is not empty and does
    not start with a [#] is converted as it is with a [#] before it. *)
Theorem FromHex_hash_optional (Pow : float -> float -> float) (s : string) :
  s <> ""%string -> byte_at s 0 <> Some 35 ->
  FromHex Pow (String "#" s) = FromHex Pow s.
Proof.
  intros Hs H0. set (rhs := FromHex Pow s).
  unfold FromHex. cbn [byte_at Z.ltb Z.compare Z.to_nat String.get bind].
  change (Z.of_N (N_of_ascii "#") =? 35) with true. cbn iota.
  cbn [String.length Nat.sub substring].
  rewrite Nat.sub_0_r, substring_all.
  subst rhs. unfold FromHex.
  destruct (byte_at_in_range s 0) as [c0 E0].
  { destruct s; [contradiction | unfold slen; cbn; lia]. }
  rewrite E0. cbn [bind].
  destruct (Z.eqb_spec c0 35) as [-> | _]; [contradiction | reflexivity].
Qed.

Lemma FromHex_hash_optional_witness :
  FromHex pow_table "#ffffff" = FromHex pow_table "ffffff".
Proof.
  apply (FromHex_hash_optional pow_table "ffffff"); discriminate.
Defined.

(** X5.  [FromHex] reads its six bytes through [hexByte] alone: two strings
    whose bytes have the same digit values are converted to the same colour.
    So the case of a digit does not matter, and a byte that is not a
    hexadecimal digit stands for the digit [0]. *)
Theorem FromHex_reads_digit_values (Pow : float -> float -> float)
        (a0 a1 a2 a3 a4 a5 b0 b1 b2 b3 b4 b5 : ascii) :
  hexByte (code a0) = hexByte (code b0) -> hexByte (code a1) = hexByte (code b1) ->
  hexByte (code a2) = hexByte (code b2) -> hexByte (code a3) = hexByte (code b3) ->
  hexByte (code a4) = hexByte (code b4) -> hexByte (code a5) = hexByte (code b5) ->
  FromHex Pow (String "#" (six a0 a1 a2 a3 a4 a5))
  = FromHex Pow (String "#" (six b0 b1 b2 b3 b4 b5)).
Proof.
  intros H0 H1 H2 H3 H4 H5. rewrite !FromHex_hash_six. unfold hexPair.
  rewrite H0, H1, H2, H3, H4, H5. reflexivity.
Qed.

Lemma FromHex_reads_digit_values_witness :
  FromHex pow_table "#FF00aB" = FromHex pow_table "#ff00Ab"
  /\ FromHex pow_table "#zz00x0" = FromHex pow_table "#000000".
Proof.
  split.
  - apply (FromHex_reads_digit_values pow_table "F" "F" "0" "0" "a" "B"
             "f" "f" "0" "0" "A" "b"); reflexivity.
  - apply (FromHex_reads_digit_values pow_table "z" "z" "0" "0" "x" "0"
             "0" "0" "0" "0" "0" "0"); reflexivity.
Defined.

(** ** Colours with a NaN component *)

Lemma add_nan_l (x : float) : (nan + x)%float = nan.
Proof. apply Prim2SF_inj. rewrite FloatAxioms.add_spec. reflexivity. Qed.

Lemma add_nan_r (x : float) : (x + nan)%float = nan.
Proof.
  apply Prim2SF_inj. rewrite FloatAxioms.add_spec.
  change (Prim2SF nan) with S754_nan. destruct (Prim2SF x); reflexivity.
Qed.

Lemma sub_nan_l (x : float) : (nan - x)%float = nan.
Proof. apply Prim2SF_inj. rewrite FloatAxioms.sub_spec. reflexivity. Qed.

Lemma sub_nan_r (x : float) : (x - nan)%float = nan.
Proof.
  apply Prim2SF_inj. rewrite FloatAxioms.sub_spec.
  change (Prim2SF nan) with S754_nan. destruct (Prim2SF x); reflexivity.
Qed.

Lemma mul_nan_r (x : float) : (x * nan)%float = nan.
Proof.
  apply Prim2SF_inj. rewrite FloatAxioms.mul_spec.
  change (Prim2SF nan) with S754_nan. destruct (Prim2SF x); reflexivity.
Qed.

Lemma div_nan_l (x : float) : (nan / x)%float = nan.
Proof. apply Prim2SF_inj. rewrite FloatAxioms.div_spec. reflexivity. Qed.

Lemma div_nan_r (x : float) : (x / nan)%float = nan.
Proof.
  apply Prim2SF_inj. rewrite FloatAxioms.div_spec.
  change (Prim2SF nan) with S754_nan. destruct (Prim2SF x); reflexivity.
Qed.

(** The only NaN of the model. *)
Lemma is_nan_eq (x : float) : is_nan x = true -> x = nan.
Proof.
  unfold is_nan. rewrite FloatAxioms.eqb_spec. intros H.
  apply Prim2SF_inj. change (Prim2SF nan) with S754_nan.
  destruct (Prim2SF x) as [s | [] | | [] m e]; try reflexivity;
    cbn in H; try discriminate H;
    unfold SFeqb in H; cbn [SFcompare] in H;
    rewrite Z.compare_refl, Pos_compare_cont_refl in H; discriminate H.
Qed.

(** [pqInv] returns no NaN. *)
Lemma pqInv_not_NaN (Pow : float -> float -> float) (x : float) :
  IsNaN (pqInv Pow x) = false.
Proof.
  unfold pqInv.
  destruct (IsNaN (1e4 * Pow _ 6.277394636015326)%float) eqn:E;
    [reflexivity | exact E].
Qed.

Lemma pqInv_nan (Pow : float -> float -> float) :
  Pow nan 7.460772656268214e-03%float = nan ->
  Pow nan 6.277394636015326%float = nan ->
  pqInv Pow nan = 0%float.
Proof.
  intros H1 H2. unfold pqInv. rewrite H1.
  rewrite sub_nan_r, div_nan_l, H2, mul_nan_r. reflexivity.
Qed.

(** X6.  A colour with a NaN component is rendered as black.  With
    [math.Pow(NaN, y) = NaN], as Go documents it, each of [l], [m] and [s] is
    the [0] that [pqInv] puts for a NaN, and [sRGB()] returns [(0, 0, 0)]:
    [Hex()] is ["#000000"] and [RGBA()] is [(0, 0, 0, 0xFFFF)]. *)
Theorem NaN_colour_is_rendered_black
        (Pow : float -> float -> float) (u32 u8' : float -> Z) (c : Color) :
  Pow nan 7.460772656268214e-03%float = nan ->
  Pow nan 6.277394636015326%float = nan ->
  is_nan (col_j c) || is_nan (col_a c) || is_nan (col_b c) = true ->
  sRGB Pow c = (0, 0, 0)%float
  /\ Hex Pow u8' c = "#000000"%string
  /\ RGBA Pow u32 c = (0, 0, 0, 0xFFFF).
Proof.
  intros H1 H2 Hnan.
  assert (Hs : sRGB Pow c = (0, 0, 0)%float).
  { assert (Hargs : forall j a b : float,
              is_nan j || is_nan a || is_nan b = true ->
              sRGB Pow (mkColor j a b) = (0, 0, 0)%float).
    { intros j a b H. unfold sRGB. cbv zeta. cbn [col_j col_a col_b].
      apply orb_true_iff in H as [H | Hb];
        [apply orb_true_iff in H as [Hj | Ha] |];
        [apply is_nan_eq in Hj; subst j | apply is_nan_eq in Ha; subst a
        | apply is_nan_eq in Hb; subst b];
        repeat first [rewrite add_nan_l | rewrite add_nan_r | rewrite sub_nan_l
                     | rewrite sub_nan_r | rewrite mul_nan_r | rewrite div_nan_l
                     | rewrite div_nan_r];
        rewrite (pqInv_nan Pow H1 H2); reflexivity. }
    destruct c as [j a b]. apply Hargs, Hnan. }
  split; [exact Hs |]. split.
  - unfold Hex. rewrite Hs. reflexivity.
  - unfold RGBA. rewrite Hs. reflexivity.
Qed.

Lemma NaN_colour_is_rendered_black_witness :
  sRGB pow_table (mkColor 0.5 nan 0) = (0, 0, 0)%float
  /\ Hex pow_table (fun _ => 0) (mkColor 0.5 nan 0) = "#000000"%string
  /\ RGBA pow_table (fun _ => 0) (mkColor 0.5 nan 0) = (0, 0, 0, 0xFFFF).
Proof.
  apply (NaN_colour_is_rendered_black pow_table (fun _ => 0) (fun _ => 0)
           (mkColor 0.5 nan 0));
    reflexivity.
Defined.

(** ** Blending a colour with itself *)

Lemma lerp_same (a f : float) : is_nan a = false -> lerp a a f = a.
Proof.
  intros H. unfold lerp. unfold is_nan in H. apply negb_false_iff in H.
  rewrite H. reflexivity.
Qed.

Lemma blend_idem (c : Color) (f : float) :
  Color_has_no_NaN c = true -> blend c c f = c.
Proof.
  unfold Color_has_no_NaN. intros H.
  apply andb_prop in H as [H Hb]. apply andb_prop in H as [Hj Ha].
  apply negb_true_iff in Hj, Ha, Hb.
  destruct c as [j a b]. cbn [col_j col_a col_b] in *. unfold blend.
  cbn [col_j col_a col_b]. rewrite !lerp_same by assumption. reflexivity.
Qed.

(** X7.  The blend of a colour without a NaN component with itself is that
    colour, bit for bit, at every fraction: a NaN or an infinite fraction
    too. *)
Theorem blend_same (c : Color) (f : float) :
  Color_has_no_NaN c = true -> blend c c f = c.
Proof. apply blend_idem. Qed.

Lemma blend_same_witness :
  blend (mkColor 0.25 (-0) infinity) (mkColor 0.25 (-0) infinity) nan
  = mkColor 0.25 (-0) infinity.
Proof. apply (blend_same (mkColor 0.25 (-0) infinity) nan). reflexivity. Defined.

(** ** [Color(idx)], case by case *)

(** X8.  [Color(idx)] panics exactly on the negative indices; it returns the
    colour of the stop at an index in range, and black at an index at or
    past the number of stops. *)
Theorem Gradient_Color_cases (g : Gradient) (idx : Z) :
  (Gradient_Color g idx = None <-> idx < 0)
  /\ (0 <= idx < len g ->
      exists st, index g idx = Some st
                 /\ Gradient_Color g idx = Some (stop_Color st))
  /\ (len g <= idx -> Gradient_Color g idx = Some black).
Proof.
  split; [| split].
  - split; [| apply Gradient_Color_negative].
    intros H. destruct (Z.lt_ge_cases idx 0) as [Hn | Hn]; [exact Hn |].
    destruct (Z.lt_ge_cases idx (len g)) as [Hin | Hout].
    + destruct (Gradient_Color_in_range g idx) as (st & _ & E); [lia |].
      rewrite E in H. discriminate H.
    + rewrite Gradient_Color_past_end in H by exact Hout. discriminate H.
  - apply Gradient_Color_in_range.
  - apply Gradient_Color_past_end.
Qed.

Lemma Gradient_Color_cases_witness :
  Gradient_Color two_stops (-5) = None
  /\ Gradient_Color two_stops 1 = Some (mkColor 0.75 (-0.25) 0.125)
  /\ Gradient_Color two_stops 2 = Some black.
Proof.
  destruct (Gradient_Color_cases two_stops (-5)) as (Hneg & _).
  destruct (Gradient_Color_cases two_stops 1) as (_ & Hin & _).
  destruct (Gradient_Color_cases two_stops 2) as (_ & _ & Hout).
  split; [apply Hneg; lia |]. split.
  - destruct Hin as (st & Hst & H); [vm_compute; split; [discriminate | reflexivity] |].
    injection Hst as <-. exact H.
  - apply Hout. vm_compute. discriminate.
Defined.

(** ** What [ColorAt] returns *)

Lemma index_In {A : Type} (l : list A) (i : Z) (x : A) :
  index l i = Some x -> In x l.
Proof.
  unfold index. destruct (i <? 0); [discriminate |]. apply nth_error_In.
Qed.

Lemma ColorAt_stop_or_blend (g : Gradient) (pos max : Z) :
  exists c,
    ColorAt g pos max = Some c
    /\ ((g = [] /\ c = black)
        \/ (exists st, In st g /\ c = stop_Color st)
        \/ (exists (i : nat) (lo hi : stop),
              nth_error g i = Some lo /\ nth_error g (S i) = Some hi
              /\ (sample pos max <? Offset lo)%float = false
              /\ (sample pos max <? Offset hi)%float = true
              /\ c = blend (stop_Color lo) (stop_Color hi)
                       ((sample pos max - Offset lo)
                        / (Offset hi - Offset lo))%float)).
Proof.
  destruct (Z.eq_dec (len g) 0) as [E0 | E0].
  { apply len_eq_0 in E0. subst g. exists black. split; [reflexivity |].
    left. split; reflexivity. }
  pose proof (len_nonneg g) as Hlen.
  destruct (index_in_range g 0) as [st0 H0]; [lia |].
  destruct (index_in_range g (len g - 1)) as [stn Hn]; [lia |].
  assert (Hfirst : exists st, In st g /\ stop_Color st0 = stop_Color st)
    by (exists st0; split; [eapply index_In; eassumption | reflexivity]).
  assert (Hlast : exists st, In st g /\ stop_Color stn = stop_Color st)
    by (exists stn; split; [eapply index_In; eassumption | reflexivity]).
  unfold ColorAt. fold (sample pos max).
  destruct (Z.eqb_spec (len g) 0); [contradiction |].
  rewrite H0, Hn. cbn [bind].
  destruct (len g =? 1); [exists (stop_Color st0); auto |].
  destruct (pos =? 0); [exists (stop_Color st0); auto |].
  destruct (pos =? max); [exists (stop_Color stn); auto |].
  pose proof (scan_bounds (sample pos max) g 0) as Hs.
  destruct (Z.eqb_spec (scan (sample pos max) g 0) 0) as [Es0 | Es0];
    [exists (stop_Color st0); auto |].
  destruct (Z.eqb_spec (scan (sample pos max) g 0) (len g)) as [Esn | Esn];
    [exists (stop_Color stn); auto |].
  destruct (scan_stops (sample pos max) g 0) as (k & hi & Hk & Hhi & Hlt & Hbefore);
    [lia |].
  rewrite Hk in *. rewrite Z.add_0_l in *.
  destruct k as [| k]; [lia |].
  destruct (nth_error g k) as [lo |] eqn:Hlo.
  2:{ apply nth_error_None in Hlo.
      assert (S k < List.length g)%nat by (apply nth_error_Some; congruence). lia. }
  replace (Z.of_nat (S k) - 1) with (Z.of_nat k) by lia.
  rewrite !index_nth, Hlo, Hhi. cbn [bind].
  eexists. split; [reflexivity |]. right. right.
  exists k, lo, hi. repeat split; try assumption.
  apply (Hbefore k lo); [lia | exact Hlo].
Qed.

(** X9.  [ColorAt] returns black on the gradient without stops and, on any
    other, the colour of one of its stops or the blend of two stops that
    follow each other, the first with an offset that [f = pos/max] is not
    below and the second with an offset that [f] is below, at the fraction
    [(f - offset[s-1]) / (offset[s] - offset[s-1])]: nothing else. *)
Theorem ColorAt_shape (g : Gradient) (pos max : Z) :
  exists c,
    ColorAt g pos max = Some c
    /\ ((g = [] /\ c = black)
        \/ (exists st, In st g /\ c = stop_Color st)
        \/ (exists (i : nat) (lo hi : stop),
              nth_error g i = Some lo /\ nth_error g (S i) = Some hi
              /\ (sample pos max <? Offset lo)%float = false
              /\ (sample pos max <? Offset hi)%float = true
              /\ c = blend (stop_Color lo) (stop_Color hi)
                       ((sample pos max - Offset lo)
                        / (Offset hi - Offset lo))%float)).
Proof. apply ColorAt_stop_or_blend. Qed.

(** X10.  On a gradient all of whose stops have one colour, without a NaN
    component, [ColorAt] returns that colour at every position, for every
    [max] and whatever the offsets are. *)
Theorem ColorAt_one_colour (g : Gradient) (c : Color) (pos max : Z) :
  g <> [] ->
  (forall st, In st g -> stop_Color st = c) ->
  Color_has_no_NaN c = true ->
  ColorAt g pos max = Some c.
Proof.
  intros Hne Hall Hc.
  destruct (ColorAt_stop_or_blend g pos max)
    as (c' & E & [(Hg & _) | [Hst | Hbl]]).
  - contradiction.
  - destruct Hst as (st & Hin & ->). rewrite E, (Hall st Hin). reflexivity.
  - destruct Hbl as (i & lo & hi & Hlo & Hhi & _ & _ & ->).
    rewrite E, (Hall lo (nth_error_In _ _ Hlo)), (Hall hi (nth_error_In _ _ Hhi)).
    rewrite blend_idem by exact Hc. reflexivity.
Qed.

Lemma ColorAt_one_colour_witness :
  ColorAt [mkStop (mkColor 0.5 0.25 0) 0; mkStop (mkColor 0.5 0.25 0) nan;
           mkStop (mkColor 0.5 0.25 0) 1] 3 7
  = Some (mkColor 0.5 0.25 0).
Proof.
  apply ColorAt_one_colour; [discriminate | | reflexivity].
  intros st [<- | [<- | [<- | []]]]; reflexivity.
Defined.

(** ** [NewGradient] and the lookups *)

Lemma fill_panics (Pow : float -> float -> float) (rest : list string)
      (offsets : list float) (i : Z) :
  In ""%string rest -> fill Pow rest offsets i = None.
Proof.
  revert i. induction rest as [| h rest IH]; intros i Hin; [contradiction |].
  cbn [fill]. destruct Hin as [-> | Hin].
  - reflexivity.
  - destruct (FromHex Pow h); [| reflexivity]. cbn [bind].
    destruct (index offsets i); [| reflexivity]. cbn [bind].
    rewrite (IH (i + 1) Hin). reflexivity.
Qed.

Lemma In_empty_dec (l : list string) :
  In ""%string l \/ forall s, In s l -> s <> ""%string.
Proof.
  induction l as [| h l [IH | IH]].
  - right. intros s [].
  - left. now right.
  - destruct (string_dec h "") as [-> | Hne]; [left; now left |].
    right. intros s [<- | Hin]; [exact Hne | apply IH, Hin].
Qed.

(** X11.  [NewGradient] panics exactly when its arguments pass its checks
    (there is a stop, and the offsets are absent or are as many as the stops
    and sorted) and one of the stops is the empty string. *)
Theorem NewGradient_panics_iff (Pow : float -> float -> float)
        (stops : list string) (offsets : list float) :
  NewGradient Pow stops offsets = None
  <-> ~ rejected stops offsets /\ In ""%string stops.
Proof.
  split.
  - intros H. destruct (rejected_dec stops offsets) as [Hr | Hok].
    { rewrite (NewGradient_rejected Pow _ _ Hr) in H. discriminate H. }
    split; [exact Hok |].
    destruct (In_empty_dec stops) as [Hin | Hnone]; [exact Hin |].
    destruct (NewGradient_populated Pow stops offsets Hok Hnone) as (g & E & _).
    rewrite E in H. discriminate H.
  - intros (Hok & Hin).
    destruct (NewGradient_accepted Pow stops offsets Hok) as (offs & _ & _ & _ & E).
    rewrite E. apply fill_panics, Hin.
Qed.

(** X12.  The stops of a gradient that [NewGradient] returns on arguments
    that pass its checks are those it was given: [Color(i)] is
    [FromHex(stops[i])], and the offset of stop [i] is [offsets[i]] when
    offsets are given. *)
Theorem NewGradient_stops (Pow : float -> float -> float)
        (stops : list string) (offsets : list float) (g : Gradient)
        (i : nat) (s : string) :
  ~ rejected stops offsets ->
  NewGradient Pow stops offsets = Some g ->
  nth_error stops i = Some s ->
  Gradient_Color g (Z.of_nat i) = FromHex Pow s
  /\ (offsets <> [] -> option_map Offset (nth_error g i) = nth_error offsets i).
Proof.
  intros Hok Hg Hs.
  destruct (NewGradient_accepted Pow stops offsets Hok)
    as (offs & Hlen & Hgiven & _ & E).
  rewrite E in Hg. destruct (fill_spec Pow stops offs 0 g Hg) as (Hl & Hoff & Hcol).
  assert (Hi : (i < List.length g)%nat).
  { rewrite Hl. apply nth_error_Some. congruence. }
  destruct (nth_error g i) as [st |] eqn:Est; [| apply nth_error_None in Est; lia].
  split.
  - unfold Gradient_Color.
    destruct (Z.gtb_spec (len g) (Z.of_nat i)); [| unfold len in *; lia].
    rewrite index_nth, Est. cbn [bind].
    pose proof (map_nth_error (fun st => Some (stop_Color st)) i g Est) as H1.
    pose proof (map_nth_error (FromHex Pow) i stops Hs) as H2.
    rewrite Hcol, H2 in H1. injection H1 as H1. symmetry. exact H1.
  - intros Hne. cbn [option_map].
    pose proof (map_nth_error Offset i g Est) as H1.
    rewrite Hoff, <- Hlen in H1. cbn [skipn] in H1.
    rewrite firstn_all, (Hgiven Hne) in H1. symmetry. exact H1.
Qed.

Lemma NewGradient_stops_witness :
  exists g,
    NewGradient pow_table ["#000000"; "#ffffff"]%string [0.25; 0.75]%float = Some g
    /\ Gradient_Color g 1 = FromHex pow_table "#ffffff"
    /\ option_map Offset (nth_error g 1) = Some 0.75%float.
Proof.
  destruct (NewGradient pow_table ["#000000"; "#ffffff"]%string [0.25; 0.75]%float)
    as [g |] eqn:Eg; [| discriminate Eg].
  exists g. split; [reflexivity |].
  destruct (NewGradient_stops pow_table ["#000000"; "#ffffff"]%string
              [0.25; 0.75]%float g 1 "#ffffff") as [Hc Ho].
  - intros [H | (_ & [H | H])];
      [discriminate H | apply H; reflexivity | vm_compute in H; discriminate H].
  - exact Eg.
  - reflexivity.
  - split; [exact Hc | apply Ho; discriminate].
Defined.

(** X13.  On arguments that do not pass its checks [NewGradient] returns a
    gradient every query of which is black: [ColorAt] at every position and
    [Color] at every index that is not negative. *)
Theorem rejected_gradient_is_black (Pow : float -> float -> float)
        (stops : list string) (offsets : list float) :
  rejected stops offsets ->
  exists g,
    NewGradient Pow stops offsets = Some g
    /\ (forall pos max, ColorAt g pos max = Some black)
    /\ (forall idx, 0 <= idx -> Gradient_Color g idx = Some black).
Proof.
  intros Hr. exists BadGradient. split; [apply NewGradient_rejected, Hr |].
  split; [intros pos max; reflexivity |].
  intros idx Hidx. apply Gradient_Color_past_end. unfold len. cbn. exact Hidx.
Qed.

Lemma rejected_gradient_is_black_witness :
  exists g,
    NewGradient pow_table ["#fff"]%string [0.8; 0.2]%float = Some g
    /\ (forall pos max, ColorAt g pos max = Some black)
    /\ (forall idx, 0 <= idx -> Gradient_Color g idx = Some black).
Proof.
  apply (rejected_gradient_is_black pow_table ["#fff"]%string [0.8; 0.2]%float).
  right. split; [discriminate | left; discriminate].
Defined.

(** ** [Hex] *)

Lemma fmt_02x_bytes : all_from fmt_02x_reads_back 0 (Z.to_nat 256) = true.
Proof. vm_compute. reflexivity. Qed.

Lemma fmt_02x_spec (v : Z) :
  0 <= v <= 255 ->
  exists d1 d2,
    fmt_02x v = String d1 (String d2 "")
    /\ is_lower_hex d1 = true /\ is_lower_hex d2 = true
    /\ hexPair (code d1) (code d2) = v.
Proof.
  intros Hv. pose proof (all_from_spec _ _ _ fmt_02x_bytes v) as H.
  rewrite Z2Nat.id in H by lia. specialize (H ltac:(lia)).
  unfold fmt_02x_reads_back in H.
  destruct (fmt_02x v) as [| d1 [| d2 [| ? ?]]]; try discriminate H.
  exists d1, d2. apply andb_prop in H as [H Hp]. apply andb_prop in H as [H1 H2].
  apply Z.eqb_eq in Hp. repeat split; assumption.
Qed.

Lemma uint8_of_float_range (u : float -> Z) (x : float) :
  0 <= uint8_of_float u x <= 255.
Proof.
  unfold uint8_of_float, u8.
  pose proof (Z.mod_pos_bound (u x) 256 ltac:(lia)).
  destruct (trunc x) as [z |]; [| lia].
  destruct (Z.leb_spec 0 z), (Z.ltb_spec z 256); cbn [andb]; lia.
Qed.

Lemma Hex_digits (Pow : float -> float -> float) (u : float -> Z) (c : Color) :
  exists d0 d1 d2 d3 d4 d5,
    Hex Pow u c = String "#" (six d0 d1 d2 d3 d4 d5)
    /\ forallb is_lower_hex [d0; d1; d2; d3; d4; d5] = true
    /\ (let '(r, g, b) := sRGB Pow c in
        hexPair (code d0) (code d1) = uint8_of_float u r
        /\ hexPair (code d2) (code d3) = uint8_of_float u g
        /\ hexPair (code d4) (code d5) = uint8_of_float u b).
Proof.
  unfold Hex. destruct (sRGB Pow c) as [[r g] b].
  destruct (fmt_02x_spec _ (uint8_of_float_range u r)) as (d0 & d1 & -> & L0 & L1 & P0).
  destruct (fmt_02x_spec _ (uint8_of_float_range u g)) as (d2 & d3 & -> & L2 & L3 & P1).
  destruct (fmt_02x_spec _ (uint8_of_float_range u b)) as (d4 & d5 & -> & L4 & L5 & P2).
  exists d0, d1, d2, d3, d4, d5. split; [reflexivity |]. split.
  - cbn [forallb]. rewrite L0, L1, L2, L3, L4, L5. reflexivity.
  - repeat split; assumption.
Qed.

(** X14.  [Hex()] returns, for every colour, a [#] and six lowercase
    hexadecimal digits: a string of seven bytes. *)
Theorem Hex_format (Pow : float -> float -> float) (u : float -> Z) (c : Color) :
  slen (Hex Pow u c) = 7
  /\ exists d0 d1 d2 d3 d4 d5,
       Hex Pow u c = String "#" (six d0 d1 d2 d3 d4 d5)
       /\ forallb is_lower_hex [d0; d1; d2; d3; d4; d5] = true.
Proof.
  destruct (Hex_digits Pow u c) as (d0 & d1 & d2 & d3 & d4 & d5 & E & L & _).
  split; [rewrite E; reflexivity |].
  exists d0, d1, d2, d3, d4, d5. split; assumption.
Qed.

(** X15.  [FromHex] reads back what [Hex()] prints: on the string [Hex()]
    returns it neither panics nor falls back to black for the length, and
    converts the three bytes that [Hex()] printed, the [uint8] of the three
    values of [sRGB()]. *)
Theorem FromHex_Hex (Pow : float -> float -> float) (u : float -> Z) (c : Color) :
  FromHex Pow (Hex Pow u c)
  = let '(r, g, b) := sRGB Pow c in
    Some (rgb8_to_Color Pow (uint8_of_float u r) (uint8_of_float u g)
            (uint8_of_float u b)).
Proof.
  destruct (Hex_digits Pow u c) as (d0 & d1 & d2 & d3 & d4 & d5 & E & _ & P).
  rewrite E, FromHex_hash_six. destruct (sRGB Pow c) as [[r g] b].
  destruct P as (-> & -> & ->). reflexivity.
Qed.

(** On black and on white, with the powers of the C library, the round trip
    is the identity. *)
Lemma Hex_FromHex_black_white (u : float -> Z) :
  (exists c, FromHex pow_table "#000000" = Some c
             /\ Hex pow_table u c = "#000000"%string)
  /\ (exists c, FromHex pow_table "#ffffff" = Some c
                /\ Hex pow_table u c = "#ffffff"%string).
Proof. split; eexists; (split; [reflexivity |]); reflexivity. Qed.

(** ** [GradientColor] *)

Lemma GradientColor_init_built (Pow : float -> float -> float)
      (g : Gradient) (stops : list string) (offsets : list float) :
  GradientColor_init Pow (mkGradientColor (Some g) stops offsets)
  = Some (mkGradientColor (Some g) stops offsets).
Proof. reflexivity. Qed.

(** X16.  [init] builds the gradient once.  After a call that returns, the
    gradient is set and [Stops] and [Offsets] are as they were; and a call on
    a [GradientColor] whose gradient is set changes nothing, whatever
    [Stops] and [Offsets] have become since: the gradient is not built
    again. *)
Theorem GradientColor_init_once (Pow : float -> float -> float)
        (gc gc' : GradientColor) :
  GradientColor_init Pow gc = Some gc' ->
  gc_g gc' <> None
  /\ Stops gc' = Stops gc /\ Offsets gc' = Offsets gc
  /\ GradientColor_init Pow gc' = Some gc'
  /\ forall stops offsets,
       GradientColor_init Pow (mkGradientColor (gc_g gc') stops offsets)
       = Some (mkGradientColor (gc_g gc') stops offsets).
Proof.
  unfold GradientColor_init at 1. destruct gc as [[g |] stops offsets];
    cbn [gc_g Stops Offsets].
  - intros H. injection H as <-. cbn [gc_g Stops Offsets].
    repeat split; try discriminate; reflexivity.
  - destruct (NewGradient Pow stops offsets) as [g |]; [| discriminate].
    cbn [bind]. intros H. injection H as <-. cbn [gc_g Stops Offsets].
    repeat split; try discriminate; reflexivity.
Qed.

Lemma GradientColor_init_once_witness :
  exists gc',
    GradientColor_init pow_table (mkGradientColor None ["#fff"]%string []) = Some gc'
    /\ gc_g gc' = Some [mkStop black 1]
    /\ GradientColor_init pow_table
         (mkGradientColor (gc_g gc') ["#000000"; "#ffffff"]%string [])
       = Some (mkGradientColor (gc_g gc') ["#000000"; "#ffffff"]%string []).
Proof.
  eexists. split; [reflexivity |]. split; [reflexivity |].
  apply (GradientColor_init_once pow_table
           (mkGradientColor None ["#fff"]%string [])).
  reflexivity.
Defined.

(** X17.  [RGBA] of a [GradientColor] whose gradient is not built yet is the
    [RGBA] of its first stop, [FromHex(Stops[0])], when [Stops] and [Offsets]
    pass the checks of [NewGradient] and no stop is the empty string; it is
    the [RGBA] of black when they do not pass them; and it panics when they
    pass them and a stop is the empty string. *)
Theorem GradientColor_RGBA_first_stop (Pow : float -> float -> float)
        (u : float -> Z) (gc : GradientColor) :
  gc_g gc = None ->
  (rejected (Stops gc) (Offsets gc) ->
   exists gc', GradientColor_RGBA Pow u gc = Some (RGBA Pow u black, gc'))
  /\ (~ rejected (Stops gc) (Offsets gc) ->
      (forall s, In s (Stops gc) -> s <> ""%string) ->
      exists s c gc',
        hd_error (Stops gc) = Some s /\ FromHex Pow s = Some c
        /\ GradientColor_RGBA Pow u gc = Some (RGBA Pow u c, gc'))
  /\ (~ rejected (Stops gc) (Offsets gc) -> In ""%string (Stops gc) ->
      GradientColor_RGBA Pow u gc = None).
Proof.
  intros Hnil. unfold GradientColor_RGBA, GradientColor_init. rewrite Hnil.
  split; [| split].
  - intros Hr. rewrite (NewGradient_rejected Pow _ _ Hr). cbn. eauto.
  - intros Hok Hs.
    destruct (NewGradient_populated Pow _ _ Hok Hs) as (g & -> & Hlen & Hcol & _).
    cbn [bind gc_g].
    destruct (Stops gc) as [| s rest] eqn:Es.
    { exfalso. apply Hok. now left. }
    destruct g as [| st g]; [discriminate Hlen |].
    cbn [map] in Hcol. injection Hcol as Hc _.
    exists s, (stop_Color st). eexists. split; [reflexivity |].
    split; [symmetry; exact Hc |].
    unfold Gradient_Color. rewrite len_cons. pose proof (len_nonneg g).
    destruct (Z.gtb_spec (len g + 1) 0); [| lia]. reflexivity.
  - intros Hok Hin.
    destruct (NewGradient_accepted Pow _ _ Hok) as (offs & _ & _ & _ & E).
    rewrite E, (fill_panics Pow _ _ _ Hin). reflexivity.
Qed.

Lemma GradientColor_RGBA_first_stop_witness :
  exists gc',
    GradientColor_RGBA pow_table (fun _ => 0)
      (mkGradientColor None ["#ffffff"; "#000000"]%string [])
    = Some ((16711425, 16711425, 16711425, 65535), gc').
Proof.
  destruct (GradientColor_RGBA_first_stop pow_table (fun _ => 0)
              (mkGradientColor None ["#ffffff"; "#000000"]%string []) eq_refl)
    as (_ & H & _).
  destruct H as (s & c & gc' & Hs & Hc & E).
  - intros [H | (H & _)]; [discriminate H | apply H; reflexivity].
  - intros s [<- | [<- | []]]; discriminate.
  - exists gc'. cbn in Hs. injection Hs as <-.
    vm_compute in Hc. injection Hc as <-. rewrite E. reflexivity.
Defined.

(** ** The two offsets of a blend *)

Lemma SFcompare_eq_r (f x y : spec_float) :
  SFeqb x y = true -> SFcompare f x = SFcompare f y.
Proof.
  unfold SFeqb.
  destruct x as [sx | sx | | sx mx ex], y as [sy | sy | | sy my ey];
    cbn [SFcompare]; try discriminate;
    try (destruct sx, sy; discriminate).
  - destruct f as [| | | [] ? ?]; reflexivity.
  - destruct sx, sy; try discriminate; reflexivity.
  - destruct sx, sy; try discriminate;
      destruct (ex ?= ey) eqn:Ee; try discriminate;
      apply Z.compare_eq in Ee; subst ey;
      destruct (Pos.compare_cont Eq mx my) eqn:Em; try discriminate;
      apply Pos.compare_eq in Em; subst my; reflexivity.
Qed.

Lemma ltb_eqb_r (f x y : float) :
  (x =? y)%float = true -> (f <? x)%float = (f <? y)%float.
Proof.
  rewrite FloatAxioms.eqb_spec, !FloatAxioms.ltb_spec. intros H.
  unfold SFltb. rewrite (SFcompare_eq_r _ _ _ H). reflexivity.
Qed.

(** X18.  When [ColorAt] blends, the offsets of the two stops it blends are
    not equal, so that it never divides by the zero of two equal offsets:
    stops that repeat an offset are never blended with each other. *)
Theorem ColorAt_blends_distinct_offsets (g : Gradient) (pos max : Z) :
  2 <= len g -> pos <> 0 -> pos <> max ->
  0 < scan (sample pos max) g 0 < len g ->
  exists lo hi,
    index g (scan (sample pos max) g 0 - 1) = Some lo
    /\ index g (scan (sample pos max) g 0) = Some hi
    /\ (Offset lo =? Offset hi)%float = false
    /\ ColorAt g pos max
       = Some (blend (stop_Color lo) (stop_Color hi)
                 ((sample pos max - Offset lo) / (Offset hi - Offset lo))%float).
Proof.
  intros Hlen Hpos Hmax Hs.
  destruct (scan_stops (sample pos max) g 0) as (k & hi & Hk & Hhi & Hlt & Hbefore);
    [lia |].
  rewrite Hk in *. rewrite Z.add_0_l in *.
  destruct k as [| k]; [lia |].
  destruct (nth_error g k) as [lo |] eqn:Hlo.
  2:{ apply nth_error_None in Hlo. unfold len in Hs. lia. }
  exists lo, hi.
  replace (Z.of_nat (S k) - 1) with (Z.of_nat k) by lia.
  rewrite !index_nth. split; [exact Hlo |]. split; [exact Hhi |]. split.
  - destruct (Offset lo =? Offset hi)%float eqn:E; [| reflexivity].
    rewrite <- (ltb_eqb_r _ _ _ E) in Hlt.
    rewrite (Hbefore k lo) in Hlt by (lia || exact Hlo). discriminate Hlt.
  - pose proof (ColorAt_bracket g pos max (S k) hi Hlen Hpos Hmax Hhi Hlt Hbefore)
      as (lo' & Hlo' & E).
    rewrite Hlo in Hlo'. injection Hlo' as <-. exact E.
Qed.

Lemma ColorAt_blends_distinct_offsets_witness :
  exists lo hi,
    index repeated_offsets (scan (sample 3 4) repeated_offsets 0 - 1) = Some lo
    /\ index repeated_offsets (scan (sample 3 4) repeated_offsets 0) = Some hi
    /\ (Offset lo =? Offset hi)%float = false
    /\ ColorAt repeated_offsets 3 4
       = Some (blend (stop_Color lo) (stop_Color hi)
                 ((sample 3 4 - Offset lo) / (Offset hi - Offset lo))%float).
Proof.
  apply (ColorAt_blends_distinct_offsets repeated_offsets 3 4);
    try lia; vm_compute; (discriminate || (split; reflexivity)).
Defined.
